(** * coding-agent: the sandboxed file tools and the tool-calling loop

    A shallow embedding of [src/coding_agent/tools.py] and
    [src/coding_agent/core.py] (and of the older copy under [agent/]),
    followed by the properties of the specification that were checked
    against it.

    Conventions of the embedding.
    - A Python [str] is a list of Unicode code points ([pystr]); the
      contents of a file are bytes ([bytes]).
    - A resolved [pathlib.Path] is the list of its components below the
      root directory [/] ([fspath]).  The file system has no symbolic
      links, so [Path.resolve] is the lexical normalisation that
      [os.path.realpath] performs on such a file system.
    - The platform is POSIX with a UTF-8 locale.  What is printed on the
      console is not part of the state.
    - A function that may raise returns a [result]; a function that touches
      the disk threads the file system through ([io]).
    - [pathspec], the [git] configuration and the model service are
      outside the repository: the matcher and the global excludes file are
      fields of the environment [Env], the model service is a script of
      responses. *)

From Stdlib Require Import NArith ZArith List Ascii String Lia.
From stdpp Require Import base option list sorting gmap.

Local Open Scope N_scope.
Local Open Scope list_scope.
Local Set Warnings "-register-all".

(** ** Strings *)

Definition pystr := list N.
Definition bytes := list ascii.

(** A literal of the source, as code points. *)
Definition py (s : string) : pystr :=
  map N_of_ascii (list_ascii_of_string s).

Arguments py : simpl never.

(** The bytes of an ASCII text. *)
Definition raw (s : string) : bytes := list_ascii_of_string s.

Definition slash : N := 47.

(** [s.split(sep)] for a one-character separator. *)
Fixpoint split (sep : N) (s : pystr) : list pystr :=
  match s with
  | [] => [[]]
  | c :: s' =>
      if N.eqb c sep then [] :: split sep s'
      else match split sep s' with
           | w :: ws => (c :: w) :: ws
           | [] => [[c]]
           end
  end.

(** [sep.join(xs)] *)
Fixpoint join (sep : pystr) (xs : list pystr) : pystr :=
  match xs with
  | [] => []
  | [x] => x
  | x :: rest => x ++ sep ++ join sep rest
  end.

(** ** Exceptions *)

Definition fspath := list pystr.

(** The [errno] values the file-system calls of the tools can fail with.
    Python raises [OSError] in the subclass that belongs to the value:
    [FileNotFoundError], [NotADirectoryError], [IsADirectoryError],
    [FileExistsError]. *)
Inductive errno := ENOENT | ENOTDIR | EISDIR | EEXIST.

(** The exceptions that can reach the dispatch boundary.  The first three
    are raised by the tools themselves with the message given; the others
    come from the interpreter and its libraries. *)
Inductive exn :=
| ValueError (msg : pystr)
| FileNotFoundError (msg : pystr)
| IsADirectoryError (msg : pystr)
| KeyError (key : pystr)
| OSError (errno : errno) (filename : fspath)
| UnicodeDecodeError (data : bytes)
| UnicodeEncodeError (text : pystr)
| TransportError.

Inductive result (A : Type) :=
| Ok (a : A)
| Raise (e : exn).
Arguments Ok {A} a.
Arguments Raise {A} e.

(** The error taxonomy of the specification, and the class an exception
    of the source falls in. *)
Inductive error_kind :=
| InvalidPath | PathEscape | NotFound | IsADirectory | HandlerFailure.

Definition msg_path_required : pystr := py "`path` is required".
Definition msg_absolute : pystr := py "Absolute paths are not allowed".
Definition msg_escape : pystr := py "Path escapes project root".

Definition classify (e : exn) : error_kind :=
  match e with
  | ValueError m =>
      if decide (m = msg_path_required) then InvalidPath
      else if decide (m = msg_absolute) then InvalidPath
      else if decide (m = msg_escape) then PathEscape
      else HandlerFailure
  | FileNotFoundError _ | OSError ENOENT _ => NotFound
  | IsADirectoryError _ | OSError EISDIR _ => IsADirectory
  | _ => HandlerFailure
  end.

(** ** Paths *)

(** [Path(s).is_absolute()] on POSIX: the string starts with a slash. *)
Definition is_absolute (s : pystr) : bool :=
  match s with
  | c :: _ => N.eqb c slash
  | [] => false
  end.

(** The components [pathlib] keeps when it parses a string: empty
    segments and [.] are dropped, [..] is kept. *)
Definition keep_segment (x : pystr) : bool :=
  negb (bool_decide (x = [])) && negb (bool_decide (x = py ".")).

Definition Path_parts (s : pystr) : list pystr :=
  filter (λ x, keep_segment x = true) (split slash s).

(** One step of [os.path.realpath] without symbolic links: [..] drops the
    last component (and stays at [/] when there is none), any other name
    is appended. *)
Definition resolve_step (acc : fspath) (x : pystr) : fspath :=
  if bool_decide (x = py "..") then removelast acc else acc ++ [x].

Definition normalise (parts : list pystr) : fspath :=
  foldl resolve_step [] parts.

(** [p.parents]: the proper ancestors of [p], nearest first. *)
Definition parents (p : fspath) : list fspath :=
  reverse (map (λ n, take n p) (seq 0 (length p))).

(** [str(p)] for a resolved path. *)
Definition str_path (p : fspath) : pystr :=
  slash :: join [slash] p.

(** [p.as_posix()] for a relative path. *)
Definition as_posix (p : list pystr) : pystr :=
  match p with
  | [] => py "."
  | _ => join [slash] p
  end.

(** ** The environment of the process *)

Record Env := {
  (** [os.getcwd()], below [/]. *)
  cwd : fspath;
  (** [str(e)] for an exception raised by the interpreter or a library. *)
  lib_message : exn → pystr;
  (** [pathspec.PathSpec.from_lines("gitwildmatch", lines).match_file]. *)
  gitwildmatch : list pystr → pystr → bool;
  (** The file named by [git config --get core.excludesFile], once
      stripped and expanded; [None] when the lookup fails. *)
  core_excludesFile : option fspath
}.

Section Sandbox.
Variable E : Env.

(** [Path(s).resolve()] *)
Definition resolve (s : pystr) : fspath :=
  if is_absolute s then normalise (Path_parts s)
  else normalise (cwd E ++ Path_parts s).

(** [_resolve_relative] of [coding_agent/tools.py]. *)
Definition _resolve_relative (path_str : pystr) : result fspath :=
  if bool_decide (path_str = []) then Raise (ValueError msg_path_required)
  else if is_absolute path_str then Raise (ValueError msg_absolute)
  else
    let base_dir := resolve (py ".") in
    let abs_path := normalise (base_dir ++ Path_parts path_str) in
    if negb (bool_decide (base_dir ∈ parents abs_path))
       && negb (bool_decide (abs_path = base_dir))
    then Raise (ValueError msg_escape)
    else Ok abs_path.
End Sandbox.

(** ** The file system *)

(** A directory tree: a regular file with its bytes, or a directory with
    its entries in the order [os.scandir] reports them. *)
Inductive node :=
| File (content : bytes)
| Dir (entries : list (pystr * node)).

(** The entries of [/]. *)
Definition FS := list (pystr * node).

Fixpoint assoc (name : pystr) (es : list (pystr * node)) : option node :=
  match es with
  | [] => None
  | (k, v) :: rest => if bool_decide (k = name) then Some v else assoc name rest
  end.

(** Replace the entry called [name], or add it at the end. *)
Fixpoint set_entry (name : pystr) (v : node) (es : list (pystr * node))
  : list (pystr * node) :=
  match es with
  | [] => [(name, v)]
  | (k, w) :: rest =>
      if bool_decide (k = name) then (k, v) :: rest
      else (k, w) :: set_entry name v rest
  end.

Fixpoint lookup_node (n : node) (p : fspath) : option node :=
  match p with
  | [] => Some n
  | name :: p' =>
      match n with
      | File _ => None
      | Dir es =>
          match assoc name es with
          | Some c => lookup_node c p'
          | None => None
          end
      end
  end.

Definition stat (fs : FS) (p : fspath) : option node := lookup_node (Dir fs) p.

(** [p.exists()], [p.is_dir()], [p.is_file()] *)
Definition exists_ (fs : FS) (p : fspath) : bool :=
  match stat fs p with Some _ => true | None => false end.

Definition is_dir (fs : FS) (p : fspath) : bool :=
  match stat fs p with Some (Dir _) => true | _ => false end.

Definition is_file (fs : FS) (p : fspath) : bool :=
  match stat fs p with Some (File _) => true | _ => false end.

(** [p.parent]; the parent of [/] is [/]. *)
Definition parent (p : fspath) : fspath := removelast p.

(** [p.mkdir(parents=True, exist_ok=True)] below the node [n]: missing
    directories are created along [p]; a regular file on the way is
    [ENOTDIR], a regular file at the end is [EEXIST]. *)
Fixpoint mkdir_node (p : fspath) (n : node) : errno + node :=
  match p with
  | [] => match n with
          | Dir _ => inr n
          | File _ => inl EEXIST
          end
  | name :: p' =>
      match n with
      | File _ => inl ENOTDIR
      | Dir es =>
          let child := match assoc name es with
                       | Some c => c
                       | None => Dir []
                       end in
          match mkdir_node p' child with
          | inr c' => inr (Dir (set_entry name c' es))
          | inl e => inl e
          end
      end
  end.

(** [open(p, "w")] followed by writing [data]: the file is created or
    truncated.  A missing parent is [ENOENT], a regular file on the way
    [ENOTDIR], a directory at [p] [EISDIR]. *)
Fixpoint store_node (p : fspath) (data : bytes) (n : node) : errno + node :=
  match p with
  | [] => match n with
          | File _ => inr (File data)
          | Dir _ => inl EISDIR
          end
  | name :: p' =>
      match n with
      | File _ => inl ENOTDIR
      | Dir es =>
          match assoc name es with
          | Some c =>
              match store_node p' data c with
              | inr c' => inr (Dir (set_entry name c' es))
              | inl e => inl e
              end
          | None =>
              match p' with
              | [] => inr (Dir (set_entry name (File data) es))
              | _ => inl ENOENT
              end
          end
      end
  end.

(** Code that touches the disk. *)
Definition io (A : Type) := FS → result A * FS.

Definition ret {A} (a : A) : io A := λ fs, (Ok a, fs).
Definition raise {A} (e : exn) : io A := λ fs, (Raise e, fs).
Definition bind {A B} (m : io A) (k : A → io B) : io B :=
  λ fs, match m fs with
        | (Ok a, fs') => k a fs'
        | (Raise e, fs') => (Raise e, fs')
        end.
Definition lift {A} (r : result A) : io A := λ fs, (r, fs).
Definition query {A} (f : FS → A) : io A := λ fs, (Ok (f fs), fs).

Notation "'let!' x ':=' m 'in' k" := (bind m (λ x, k))
  (at level 10, x name, m at level 100, k at level 200).

Definition mkdir_parents (p : fspath) : io unit :=
  λ fs, match mkdir_node p (Dir fs) with
        | inr (Dir fs') => (Ok tt, fs')
        | inr (File _) => (Ok tt, fs)
        | inl e => (Raise (OSError e p), fs)
        end.

Definition store (p : fspath) (data : bytes) : io unit :=
  λ fs, match store_node p data (Dir fs) with
        | inr (Dir fs') => (Ok tt, fs')
        | inr (File _) => (Raise (OSError EISDIR p), fs)
        | inl e => (Raise (OSError e p), fs)
        end.

(** ** Text files *)

(** The [utf-8] codec, strict as in Python: surrogates and code points
    above U+10FFFF do not encode; overlong forms, surrogates, stray and
    missing continuation bytes do not decode. *)
Definition utf8_encode_char (c : N) : option bytes :=
  if c <? 128 then Some [ascii_of_N c]
  else if c <? 2048 then
    Some [ascii_of_N (192 + c / 64); ascii_of_N (128 + c mod 64)]
  else if c <? 65536 then
    if (55296 <=? c) && (c <=? 57343) then None
    else Some [ascii_of_N (224 + c / 4096);
               ascii_of_N (128 + (c / 64) mod 64);
               ascii_of_N (128 + c mod 64)]
  else if c <=? 1114111 then
    Some [ascii_of_N (240 + c / 262144);
          ascii_of_N (128 + (c / 4096) mod 64);
          ascii_of_N (128 + (c / 64) mod 64);
          ascii_of_N (128 + c mod 64)]
  else None.

Fixpoint utf8_encode (s : pystr) : option bytes :=
  match s with
  | [] => Some []
  | c :: s' =>
      match utf8_encode_char c, utf8_encode s' with
      | Some b, Some bs => Some (b ++ bs)
      | _, _ => None
      end
  end.

Definition continuation (b : N) : bool := (128 <=? b) && (b <=? 191).

Definition decoded (c : N) (rest : option pystr) : option pystr :=
  match rest with
  | Some s => Some (c :: s)
  | None => None
  end.

Fixpoint utf8_decode (b : bytes) : option pystr :=
  match b with
  | [] => Some []
  | a0 :: r0 =>
      let b0 := N_of_ascii a0 in
      if b0 <? 128 then decoded b0 (utf8_decode r0)
      else if (194 <=? b0) && (b0 <=? 223) then
        match r0 with
        | a1 :: r1 =>
            let b1 := N_of_ascii a1 in
            if continuation b1
            then decoded ((b0 - 192) * 64 + (b1 - 128)) (utf8_decode r1)
            else None
        | _ => None
        end
      else if (224 <=? b0) && (b0 <=? 239) then
        match r0 with
        | a1 :: a2 :: r2 =>
            let b1 := N_of_ascii a1 in
            let b2 := N_of_ascii a2 in
            let c := (b0 - 224) * 4096 + (b1 - 128) * 64 + (b2 - 128) in
            if continuation b1 && continuation b2 && (2048 <=? c)
               && negb ((55296 <=? c) && (c <=? 57343))
            then decoded c (utf8_decode r2)
            else None
        | _ => None
        end
      else if (240 <=? b0) && (b0 <=? 244) then
        match r0 with
        | a1 :: a2 :: a3 :: r3 =>
            let b1 := N_of_ascii a1 in
            let b2 := N_of_ascii a2 in
            let b3 := N_of_ascii a3 in
            let c := (b0 - 240) * 262144 + (b1 - 128) * 4096
                     + (b2 - 128) * 64 + (b3 - 128) in
            if continuation b1 && continuation b2 && continuation b3
               && (65536 <=? c) && (c <=? 1114111)
            then decoded c (utf8_decode r3)
            else None
        | _ => None
        end
      else None
  end.

(** The [latin-1] codec maps every byte to the code point of its value. *)
Definition latin1_decode (b : bytes) : pystr := map N_of_ascii b.

(** Reading in text mode with [newline=None]: [\r\n] and [\r] arrive as
    [\n]. *)
Fixpoint universal_newlines (s : pystr) : pystr :=
  match s with
  | [] => []
  | c :: rest =>
      if N.eqb c 13 then
        match rest with
        | c' :: rest' =>
            if N.eqb c' 10 then 10 :: universal_newlines rest'
            else 10 :: universal_newlines rest
        | [] => [10]
        end
      else c :: universal_newlines rest
  end.

Inductive encoding := utf_8 | latin_1.

(** [p.read_text(encoding=enc)] *)
Definition read_text (p : fspath) (enc : encoding) : io pystr :=
  λ fs, match stat fs p with
        | None => (Raise (OSError ENOENT p), fs)
        | Some (Dir _) => (Raise (OSError EISDIR p), fs)
        | Some (File data) =>
            match enc with
            | utf_8 =>
                match utf8_decode data with
                | Some s => (Ok (universal_newlines s), fs)
                | None => (Raise (UnicodeDecodeError data), fs)
                end
            | latin_1 => (Ok (universal_newlines (latin1_decode data)), fs)
            end
        end.

(** [p.write_text(text, encoding="utf-8")]: the file is opened (created or
    truncated) before the text is encoded; on POSIX [\n] is written as it
    is. *)
Definition write_text (p : fspath) (text : pystr) : io unit :=
  let! _ := store p [] in
  match utf8_encode text with
  | Some data => store p data
  | None => raise (UnicodeEncodeError text)
  end.

(** [try: ... except UnicodeDecodeError: ...] *)
Definition except_UnicodeDecodeError {A} (m handler : io A) : io A :=
  λ fs, match m fs with
        | (Raise (UnicodeDecodeError _), fs') => handler fs'
        | r => r
        end.

(** ** Library functions on strings *)

Fixpoint startswith (s pre : pystr) {struct pre} : bool :=
  match pre, s with
  | [], _ => true
  | a :: pre', b :: s' => N.eqb a b && startswith s' pre'
  | _ :: _, [] => false
  end.

(** The scan of [s.replace(old, new)] for a non-empty [old]: occurrences
    are taken from the left and do not overlap.  [skip] counts the
    characters of the occurrence just replaced that are still ahead. *)
Fixpoint replace_scan (old new : pystr) (skip : nat) (s : pystr) : pystr :=
  match s with
  | [] => []
  | c :: s' =>
      match skip with
      | S k => replace_scan old new k s'
      | O =>
          if startswith s old
          then new ++ replace_scan old new (Nat.pred (length old)) s'
          else c :: replace_scan old new 0 s'
      end
  end.

(** [s.replace(old, new)]; an empty [old] matches before every character
    and at the end. *)
Definition str_replace (s old new : pystr) : pystr :=
  match old with
  | [] => new ++ flat_map (λ c, c :: new) s
  | _ => replace_scan old new 0 s
  end.

(** [s.splitlines()] *)
Definition line_boundary (c : N) : bool :=
  bool_decide (c ∈ [10; 11; 12; 13; 28; 29; 30; 133; 8232; 8233]).

Fixpoint splitlines_from (cur : pystr) (s : pystr) : list pystr :=
  match s with
  | [] => match cur with [] => [] | _ => [reverse cur] end
  | c :: rest =>
      if line_boundary c then
        match rest with
        | c' :: rest' =>
            if N.eqb c 13 && N.eqb c' 10
            then reverse cur :: splitlines_from [] rest'
            else reverse cur :: splitlines_from [] rest
        | [] => [reverse cur]
        end
      else splitlines_from (c :: cur) rest
  end.

Definition splitlines (s : pystr) : list pystr := splitlines_from [] s.

(** Comparison of [str] values: lexicographic on code points. *)
Fixpoint str_leb (a b : pystr) : bool :=
  match a, b with
  | [], _ => true
  | _ :: _, [] => false
  | x :: a', y :: b' =>
      if x <? y then true else if y <? x then false else str_leb a' b'
  end.

Definition str_le (a b : pystr) : Prop := str_leb a b = true.

#[global] Instance str_le_dec : RelDecision str_le :=
  λ a b, decide (str_leb a b = true).

(** [sorted(l)] on strings.  The order is total and antisymmetric, so the
    sorted arrangement of a list is unique and any sorting algorithm
    returns it. *)
Definition sorted (l : list pystr) : list pystr := merge_sort str_le l.

(** [json.dumps] of a list of strings (with the default
    [ensure_ascii=True]). *)
Definition hex_digit (n : N) : N :=
  if n <? 10 then 48 + n else 87 + n.

Definition hex4 (n : N) : pystr :=
  [hex_digit (n / 4096 mod 16); hex_digit (n / 256 mod 16);
   hex_digit (n / 16 mod 16); hex_digit (n mod 16)].

Definition json_escape_char (c : N) : pystr :=
  if N.eqb c 92 then py "\\"
  else if N.eqb c 34 then [92; 34]
  else if N.eqb c 8 then py "\b"
  else if N.eqb c 12 then py "\f"
  else if N.eqb c 10 then py "\n"
  else if N.eqb c 13 then py "\r"
  else if N.eqb c 9 then py "\t"
  else if (32 <=? c) && (c <=? 126) then [c]
  else if c <? 65536 then py "\u" ++ hex4 c
  else
    let v := c - 65536 in
    py "\u" ++ hex4 (55296 + v / 1024 mod 1024)
    ++ py "\u" ++ hex4 (56320 + v mod 1024).

Definition json_string (s : pystr) : pystr :=
  [34] ++ flat_map json_escape_char s ++ [34].

Definition json_dumps (l : list pystr) : pystr :=
  py "[" ++ join (py ", ") (map json_string l) ++ py "]".

(** ** The tools of [coding_agent/tools.py] *)

(** [inp[key]] *)
Definition getitem (inp : gmap pystr pystr) (key : pystr) : result pystr :=
  match inp !! key with
  | Some v => Ok v
  | None => Raise (KeyError key)
  end.

Section Tools.
Variable E : Env.

(** [_get_gitignore]: the lines of [root/.gitignore], of
    [root/.git/info/exclude] and of the global excludes file, in this
    order, compiled by [pathspec].  [read_text()] decodes with the
    encoding of the locale, taken to be UTF-8. *)
Definition ignore_lines (path : fspath) : io (list pystr) :=
  let! f := query (λ fs, is_file fs path) in
  if f then
    let! text := read_text path utf_8 in
    ret (splitlines text)
  else ret [].

Definition _get_gitignore (root : fspath) : io (pystr → bool) :=
  let! l1 := ignore_lines (root ++ Path_parts (py ".gitignore")) in
  let! l2 := ignore_lines (root ++ Path_parts (py ".git/info/exclude")) in
  let! l3 := match core_excludesFile E with
             | Some g => ignore_lines g
             | None => ret []
             end in
  ret (gitwildmatch E (l1 ++ l2 ++ l3)).
End Tools.

(** [dirs.remove(d)]: the first occurrence goes. *)
Fixpoint list_remove (d : pystr) (l : list pystr) : list pystr :=
  match l with
  | [] => []
  | x :: rest => if bool_decide (x = d) then rest else x :: list_remove d rest
  end.

Section Walk.
Variable ignore : pystr → bool.

(** The names [os.walk] hands over for one directory. *)
Definition subdirs (es : list (pystr * node)) : list pystr :=
  flat_map (λ e, match e with (k, Dir _) => [k] | _ => [] end) es.

Definition nondirs (es : list (pystr * node)) : list pystr :=
  flat_map (λ e, match e with (k, File _) => [k] | _ => [] end) es.

(** [for d in list(dirs): if ignore.match_file(rel + "/"): dirs.remove(d)] *)
Definition prune_dirs (rel : list pystr) (dirs : list pystr) : list pystr :=
  foldl (λ ds d, if ignore (as_posix (rel ++ [d]) ++ [slash])
                 then list_remove d ds else ds) dirs dirs.

(** [for name in files + dirs: ...] for the directory at [rel] with the
    entries [es]. *)
Definition report (rel : list pystr) (es : list (pystr * node))
    (names : list pystr) : list pystr :=
  flat_map (λ name,
    let rel_path_str := as_posix (rel ++ [name]) in
    if ignore rel_path_str then []
    else match assoc name es with
         | Some (Dir _) => [rel_path_str ++ [slash]]
         | _ => [rel_path_str]
         end) names.

(** The body of the [os.walk(base_dir, topdown=True)] loop, for the
    directory [n] found at [rel] below [base_dir], and then for the
    directories left in [dirs], in their order. *)
Fixpoint walk (rel : list pystr) (n : node) {struct n} : list pystr :=
  match n with
  | File _ => []
  | Dir es =>
      let dirs := prune_dirs rel (subdirs es) in
      let files := nondirs es in
      report rel es (files ++ dirs)
      ++ flat_map (λ e,
           match e with
           | (d, (Dir _) as c) =>
               if bool_decide (d ∈ dirs) then walk (rel ++ [d]) c else []
           | _ => []
           end) es
  end.
End Walk.

Section FileTools.
Variable E : Env.

Definition list_files (inp : gmap pystr pystr) : io pystr :=
  let base_dir_str := default (py ".") (inp !! py "path") in
  let base_dir := resolve E base_dir_str in
  let! found := query (λ fs, exists_ fs base_dir) in
  if negb found then
    raise (FileNotFoundError
             (py "'" ++ str_path base_dir ++ py "' does not exist"))
  else
    let! d := query (λ fs, is_dir fs base_dir) in
    if negb d then ret (json_dumps [])
    else
      let! ignore := _get_gitignore E base_dir in
      let! tree := query (λ fs, default (Dir []) (stat fs base_dir)) in
      ret (json_dumps (sorted (walk ignore [] tree))).

Definition read_file (inp : gmap pystr pystr) : io pystr :=
  let! path_str := lift (getitem inp (py "path")) in
  let! path := lift (_resolve_relative E path_str) in
  let! found := query (λ fs, exists_ fs path) in
  if negb found then
    raise (FileNotFoundError (py "No such file: " ++ str_path path))
  else
    let! d := query (λ fs, is_dir fs path) in
    if d then
      raise (IsADirectoryError
               (py "Expected a file, found a directory: " ++ path_str))
    else
      except_UnicodeDecodeError (read_text path utf_8)
                                (read_text path latin_1).

Definition edit_file (inp : gmap pystr pystr) : io pystr :=
  let! path_str := lift (getitem inp (py "path")) in
  let! path := lift (_resolve_relative E path_str) in
  let! old_str := lift (getitem inp (py "old_str")) in
  let! new_str := lift (getitem inp (py "new_str")) in
  let! found := query (λ fs, exists_ fs path) in
  if negb found && bool_decide (old_str = []) then
    let! parent_found := query (λ fs, exists_ fs (parent path)) in
    let! _ := (if negb parent_found then mkdir_parents (parent path)
               else ret tt) in
    let! _ := write_text path new_str in
    ret (py "Created new file: " ++ path_str)
  else
    let! found := query (λ fs, exists_ fs path) in
    if negb found then
      raise (FileNotFoundError (py "No such file: " ++ str_path path))
    else
      let! d := query (λ fs, is_dir fs path) in
      if d then
        raise (IsADirectoryError
                 (py "Expected a file, found a directory: " ++ path_str))
      else
        let! content :=
          except_UnicodeDecodeError (read_text path utf_8)
                                    (read_text path latin_1) in
        let new_content := str_replace content old_str new_str in
        let! _ := write_text path new_content in
        ret (py "Successfully edited file: " ++ path_str).

(** A tool of the registry: the declaration sent to the model (here its
    name, description and required inputs) and the handler. *)
Record ToolSpec := {
  name : pystr;
  description : pystr;
  required : list pystr;
  fn : gmap pystr pystr → io pystr
}.

Definition READ_FILE : ToolSpec := {|
  name := py "read_file";
  description := py "Read the text contents of a relative file path. ";
  required := [py "path"];
  fn := read_file
|}.

Definition LIST_FILES : ToolSpec := {|
  name := py "list_files";
  description :=
    py "Recursively list files/directories under a path. "
    ++ py "Returns JSON array of relative paths; directories end with '/'. "
    ++ py "If no path is given, the current directory is used.";
  required := [];
  fn := list_files
|}.

Definition EDIT_FILE : ToolSpec := {|
  name := py "edit_file";
  description :=
    py "Replace old_str with new_str in the given file. "
    ++ py "If the file does not exist and old_str is empty, create the file.";
  required := [py "path"; py "old_str"; py "new_str"];
  fn := edit_file
|}.

Definition ALL_TOOLS : list ToolSpec := [LIST_FILES; READ_FILE; EDIT_FILE].

(** [{t["name"]: t for t in tools}]: a later tool of the same name
    replaces an earlier one. *)
Definition tool_map (tools : list ToolSpec) : gmap pystr ToolSpec :=
  foldl (λ m t, <[name t := t]> m) ∅ tools.

Definition TOOL_MAP : gmap pystr ToolSpec := tool_map ALL_TOOLS.

(** ** Dispatch: [run_tool] of [coding_agent/core.py] *)

(** The content blocks of a model response. *)
Inductive block :=
| Text (text : pystr)
| ToolUse (id : pystr) (tool : pystr) (input : gmap pystr pystr)
| OtherBlock (type : pystr).

(** The values of a [tool_result] dictionary. *)
Inductive value :=
| VStr (s : pystr)
| VBool (b : bool).

(** [str(e)] *)
Definition str_exn (e : exn) : pystr :=
  match e with
  | ValueError m | FileNotFoundError m | IsADirectoryError m => m
  | KeyError k => py "'" ++ k ++ py "'"
  | _ => lib_message E e
  end.

Definition tool_result_error (id text : pystr) : gmap pystr value :=
  <[py "content" := VStr text]>
  (<[py "is_error" := VBool true]>
  (<[py "tool_use_id" := VStr id]>
  (<[py "type" := VStr (py "tool_result")]> ∅))).

Definition tool_result_ok (id output : pystr) : gmap pystr value :=
  <[py "content" := VStr output]>
  (<[py "tool_use_id" := VStr id]>
  (<[py "type" := VStr (py "tool_result")]> ∅)).

(** [run_tool] for a [tool_use] block with the attributes [id], [name]
    and [input], over the registry [registry] ([TOOL_MAP] in the
    source). *)
Definition run_tool_in (registry : gmap pystr ToolSpec)
    (id tool : pystr) (payload : gmap pystr pystr) : io (gmap pystr value) :=
  match registry !! tool with
  | None => ret (tool_result_error id (py "Unknown tool '" ++ tool ++ py "'"))
  | Some spec =>
      λ fs, match fn spec payload fs with
            | (Ok output, fs') => (Ok (tool_result_ok id output), fs')
            | (Raise e, fs') => (Ok (tool_result_error id (str_exn e)), fs')
            end
  end.

Definition run_tool (id tool : pystr) (payload : gmap pystr pystr)
  : io (gmap pystr value) :=
  run_tool_in TOOL_MAP id tool payload.

(** ** The orchestrator: [handle] and one round of [loop] *)

(** A response of the model service. *)
Record Message := {
  role : pystr;
  content : list block
}.

(** An entry of [CONV]. *)
Inductive param_content :=
| Blocks (bs : list block)
| Dicts (ds : list (gmap pystr value)).

Record MessageParam := {
  mp_role : pystr;
  mp_content : param_content
}.

(** The state of the process: the conversation, the disk, and the model
    service, which is a script of the responses it is going to give and
    the record of the conversations it was sent. *)
Record World := {
  CONV : list MessageParam;
  disk : FS;
  replies : list Message;
  requests : list (list MessageParam)
}.

Definition CONV_append (m : MessageParam) (w : World) : World :=
  {| CONV := CONV w ++ [m]; disk := disk w;
     replies := replies w; requests := requests w |}.

Definition with_disk (fs : FS) (w : World) : World :=
  {| CONV := CONV w; disk := fs;
     replies := replies w; requests := requests w |}.

(** [client.messages.create(..., messages=CONV, tools=TOOLS)]; a service
    with nothing left to say fails. *)
Definition create (w : World) : result Message * World :=
  let sent := requests w ++ [CONV w] in
  match replies w with
  | [] => (Raise TransportError,
           {| CONV := CONV w; disk := disk w; replies := [];
              requests := sent |})
  | m :: rest => (Ok m,
           {| CONV := CONV w; disk := disk w; replies := rest;
              requests := sent |})
  end.

(** [for block in current.content: ...] *)
Fixpoint for_blocks (bs : list block) (pending : list Message) (w : World)
  : result (list Message) * World :=
  match bs with
  | [] => (Ok pending, w)
  | ToolUse id tool input :: bs' =>
      match run_tool id tool input (disk w) with
      | (Ok result_block, fs') =>
          let w1 := CONV_append {| mp_role := py "user";
                                   mp_content := Dicts [result_block] |}
                                (with_disk fs' w) in
          match create w1 with
          | (Ok m, w2) => for_blocks bs' (pending ++ [m]) w2
          | (Raise e, w2) => (Raise e, w2)
          end
      | (Raise e, fs') => (Raise e, with_disk fs' w)
      end
  | _ :: bs' => for_blocks bs' pending w
  end.

(** One round of [while pending:]: [current = pending.pop(0)], the entry
    for it in [CONV], and the loop over its blocks. *)
Definition loop_body (role0 : pystr) (current : Message)
    (rest : list Message) (w : World) : result (list Message) * World :=
  let w1 := CONV_append {| mp_role := role0;
                           mp_content := Blocks (content current) |}
                        w in
  for_blocks (content current) rest w1.

(** [while pending: ...]; [fuel] bounds the number of rounds. *)
Fixpoint while_pending (fuel : nat) (role0 : pystr) (pending : list Message)
    (w : World) : option (result unit * World) :=
  match pending with
  | [] => Some (Ok tt, w)
  | current :: rest =>
      match fuel with
      | O => None
      | S fuel' =>
          match loop_body role0 current rest w with
          | (Ok pending', w2) => while_pending fuel' role0 pending' w2
          | (Raise e, w2) => Some (Raise e, w2)
          end
      end
  end.

Definition handle (fuel : nat) (message : Message) (w : World)
  : option (result unit * World) :=
  while_pending fuel (role message) [message] w.

(** One round of [loop] for a non-empty line of input. *)
Definition text_param (text : pystr) : gmap pystr value :=
  <[py "text" := VStr text]> (<[py "type" := VStr (py "text")]> ∅).

Definition loop_round (fuel : nat) (user_input : pystr) (w : World)
  : option (result unit * World) :=
  let w1 := CONV_append {| mp_role := py "user";
                           mp_content := Dicts [text_param user_input] |}
                        w in
  match create w1 with
  | (Ok message, w2) => handle fuel message w2
  | (Raise e, w2) => Some (Raise e, w2)
  end.
End FileTools.

(** ** The older copy: [agent/tools.py] and [agent/core.py] *)

Module agent.
Section Agent.
Variable E : Env.

(** [list_files] and [_get_gitignore] of [agent/tools.py] are, statement
    for statement, those of [coding_agent/tools.py]. *)
Definition list_files : gmap pystr pystr → io pystr := list_files E.

Definition LIST_FILES : ToolSpec := {|
  name := py "list_files";
  description :=
    py "Recursively list files/directories under a path. "
    ++ py "Returns JSON array of relative paths; directories end with '/'. "
    ++ py "If no path is given, the current directory is used.";
  required := [];
  fn := list_files
|}.

(** [read_file] and [edit_file] are stubs here and stay outside the
    registry. *)
Definition ALL_TOOLS : list ToolSpec := [LIST_FILES].

Definition TOOL_MAP : gmap pystr ToolSpec := tool_map ALL_TOOLS.

(** In this copy the text of a failure is stored under ["error"]. *)
Definition tool_result_error (id text : pystr) : gmap pystr value :=
  <[py "error" := VStr text]>
  (<[py "is_error" := VBool true]>
  (<[py "tool_use_id" := VStr id]>
  (<[py "type" := VStr (py "tool_result")]> ∅))).

Definition run_tool_in (registry : gmap pystr ToolSpec)
    (id tool : pystr) (payload : gmap pystr pystr) : io (gmap pystr value) :=
  match registry !! tool with
  | None => ret (tool_result_error id (py "Unknown tool '" ++ tool ++ py "'"))
  | Some spec =>
      λ fs, match fn spec payload fs with
            | (Ok output, fs') => (Ok (tool_result_ok id output), fs')
            | (Raise e, fs') => (Ok (tool_result_error id (str_exn E e)), fs')
            end
  end.

Definition run_tool (id tool : pystr) (payload : gmap pystr pystr)
  : io (gmap pystr value) :=
  run_tool_in TOOL_MAP id tool payload.
End Agent.
End agent.

(** ** Vocabulary of the specification *)

(** The project root: the directory the process was started in. *)
Definition project_root (E : Env) : fspath := resolve E (py ".").

(** [normalize(project_root / relative_path)] *)
Definition candidate (E : Env) (p : pystr) : fspath :=
  normalise (project_root E ++ Path_parts p).

(** [c] lies strictly below [root]. *)
Definition descendant (root c : fspath) : Prop :=
  ∃ below, below ≠ [] ∧ c = root ++ below.

Definition fails_with {A} (r : result A) (k : error_kind) : Prop :=
  ∃ e, r = Raise e ∧ classify e = k.

(** A sample environment and disk for the examples. *)
Definition sample_env : Env := {|
  cwd := [py "home"; py "proj"];
  lib_message := λ _, py "library error";
  gitwildmatch := λ lines s, bool_decide (s ∈ lines);
  core_excludesFile := None
|}.

Definition sample_disk : FS :=
  [(py "home",
    Dir [(py "proj",
          Dir [(py "a.txt", File (raw "hello"));
               (py ".gitignore", File (raw "build/"));
               (py "build", Dir [(py "out.o", File [])]);
               (py "src", Dir [(py "m.py", File (raw "x = 1"))])])]);
   (py "etc", Dir [(py "passwd", File (raw "root"))])].

(** [old] occurs in [s]; its leftmost occurrence starts after [pre]. *)
Definition occurs (old s : pystr) : Prop :=
  ∃ pre rest, s = pre ++ old ++ rest.




(** A code point the [utf-8] codec accepts. *)
Definition scalar (c : N) : Prop := is_Some (utf8_encode_char c).

(** Text that the [utf-8] codec can encode: no surrogate, nothing above
    U+10FFFF. *)
Definition encodable (s : pystr) : Prop := is_Some (utf8_encode s).

(** The text of a file as the tools read it: [utf-8], or [latin-1] when
    the bytes are not [utf-8], with the line ends translated. *)
Definition file_text (data : bytes) : pystr :=
  universal_newlines (default (latin1_decode data) (utf8_decode data)).

(** A directory tree as a file system has it: the names inside a
    directory are distinct. *)
Fixpoint wf_node (n : node) : Prop :=
  match n with
  | File _ => True
  | Dir es =>
      NoDup (map fst es)
      ∧ (fix all (es : list (pystr * node)) : Prop :=
           match es with
           | [] => True
           | (_, c) :: rest => wf_node c ∧ all rest
           end) es
  end.

(** What [list_files] is to report for the directory tree [root] under
    the matcher [ignore]: [r] is the relative path [comps] of an entry of
    the tree, with a slash at the end for a directory, such that no
    directory above it is ignored and the entry is not ignored itself. *)
Definition listed (ignore : pystr → bool) (root : node) (rel : list pystr)
    (r : pystr) : Prop :=
  ∃ comps n,
    comps ≠ [] ∧ lookup_node root comps = Some n
    ∧ (∀ q, q ≠ [] → q `prefix_of` comps → q ≠ comps →
         ignore (as_posix (rel ++ q) ++ [slash]) = false)
    ∧ ignore (as_posix (rel ++ comps)) = false
    ∧ match n with
      | Dir _ =>
          ignore (as_posix (rel ++ comps) ++ [slash]) = false
          ∧ r = as_posix (rel ++ comps) ++ [slash]
      | File _ => r = as_posix (rel ++ comps)
      end.

(** Two directory trees with the same contents: the entries of a
    directory may come in a different order. *)
Inductive same_contents : node → node → Prop :=
| same_file d : same_contents (File d) (File d)
| same_dir es es' es'' :
    Forall2 (λ e e', e.1 = e'.1 ∧ same_contents e.2 e'.2) es es' →
    es' ≡ₚ es'' →
    same_contents (Dir es) (Dir es'').

(** The directory [d] found at [rel] is not pruned. *)
Definition kept (ignore : pystr → bool) (rel : list pystr) (d : pystr)
  : Prop :=
  ignore (as_posix (rel ++ [d]) ++ [slash]) = false.

#[global] Instance kept_dec ignore rel d : Decision (kept ignore rel d) :=
  decide (ignore (as_posix (rel ++ [d]) ++ [slash]) = false).

Definition is_Dir (n : node) : bool :=
  match n with Dir _ => true | File _ => false end.

(** The [tool_use] blocks of a response, by their ids. *)
Definition tool_use_ids (bs : list block) : list pystr :=
  flat_map (λ b, match b with ToolUse id _ _ => [id] | _ => [] end) bs.

Definition tool_uses (m : Message) : nat := length (tool_use_ids (content m)).

Definition total_tool_uses (ms : list Message) : nat :=
  sum_list_with tool_uses ms.

(** What an entry of [CONV] is: a response of the model, the result of
    the tool use [id] in a user message, or something else. *)
Inductive entry_kind :=
| ModelResponse (role : pystr) (bs : list block)
| ToolResultFor (id : pystr)
| OtherEntry.

Definition kind_of (m : MessageParam) : entry_kind :=
  match mp_content m with
  | Blocks bs => ModelResponse (mp_role m) bs
  | Dicts [rb] =>
      match rb !! py "type", rb !! py "tool_use_id" with
      | Some (VStr t), Some (VStr id) =>
          if bool_decide (t = py "tool_result")
             && bool_decide (mp_role m = py "user")
          then ToolResultFor id else OtherEntry
      | _, _ => OtherEntry
      end
  | Dicts _ => OtherEntry
  end.

(** The entries a processed response leaves in [CONV]: the response, then
    one tool result per [tool_use] block, in order. *)
Definition entries_for (role0 : pystr) (m : Message) : list entry_kind :=
  ModelResponse role0 (content m)
  :: map ToolResultFor (tool_use_ids (content m)).

(** The number of tool dispatches recorded in a conversation. *)
Definition is_tool_result (k : entry_kind) : bool :=
  match k with
  | ToolResultFor _ => true
  | _ => false
  end.

Definition count_tool_results (ks : list entry_kind) : nat :=
  length (List.filter is_tool_result ks).

Definition dispatches (conv : list MessageParam) : nat :=
  count_tool_results (map kind_of conv).


(** ** The session: [loop] of [coding_agent/core.py] *)

(** [loop], for the lines typed at the prompt until the end of input
    ([EOFError] or [KeyboardInterrupt] at the prompt leave the loop); an
    exception of a round leaves it as well.  [fuel] bounds the rounds of
    each call of [handle]. *)
Fixpoint loop (E : Env) (fuel : nat) (lines : list pystr) (w : World)
  : option (result unit * World) :=
  match lines with
  | [] => Some (Ok tt, w)
  | user_input :: rest =>
      if bool_decide (user_input = []) then loop E fuel rest w
      else match loop_round E fuel user_input w with
           | Some (Ok _, w') => loop E fuel rest w'
           | other => other
           end
  end.

(** ** Vocabulary for the further properties *)

(** Neither path lies on the way to the other. *)
Definition apart (p q : fspath) : Prop :=
  ¬ p `prefix_of` q ∧ ¬ q `prefix_of` p.

(** The disk [fs'] differs from [fs] at most on the way to [p] and
    below it. *)
Definition same_outside (p : fspath) (fs fs' : FS) : Prop :=
  ∀ q, apart p q → stat fs' q = stat fs q.

(** The lines an ignore source contributes: none unless it is a regular
    file; [None] when its bytes are not UTF-8. *)
Definition source_lines (fs : FS) (path : fspath) : option (list pystr) :=
  match stat fs path with
  | Some (File data) =>
      match utf8_decode data with
      | Some s => Some (splitlines (universal_newlines s))
      | None => None
      end
  | _ => Some []
  end.

(** A name a directory entry can have: not empty, not [.] or [..], no
    slash in it. *)
Definition valid_name (x : pystr) : Prop :=
  x ≠ [] ∧ x ≠ py "." ∧ x ≠ py ".." ∧ slash ∉ x.

(** Code that takes the disk from [fs] to some [fs'] related by [P],
    whether it returns or raises. *)
Definition keeps (P : FS → FS → Prop) {A} (m : io A) : Prop :=
  ∀ fs, P fs (m fs).2.

(** Code that raises nothing but exceptions in [Q]. *)
Definition throws (Q : exn → Prop) {A} (m : io A) : Prop :=
  ∀ fs e, (m fs).1 = Raise e → Q e.

(** An exception of the library: of the file system or of a codec. *)
Definition library_error (e : exn) : Prop :=
  match e with
  | OSError _ _ | UnicodeDecodeError _ | UnicodeEncodeError _ => True
  | _ => False
  end.

Definition not_KeyError (e : exn) : Prop :=
  match e with KeyError _ => False | _ => True end.

(** The ignore sources of [_get_gitignore] for the directory [root], in
    the order they are read. *)
Definition ignore_sources (E : Env) (root : fspath) : list fspath :=
  [root ++ [py ".gitignore"]; root ++ [py ".git"; py "info"; py "exclude"]]
  ++ match core_excludesFile E with Some g => [g] | None => [] end.

(** The world [w'] continues [w]: the conversation and the record of the
    requests have grown at their ends, every new request carried the
    conversation as it was when it was sent, the model has given some of
    its replies, and the disk differs at most on the way to the project
    root and below it. *)
Definition continues (E : Env) (w w' : World) : Prop :=
  CONV w `prefix_of` CONV w'
  ∧ (∃ new_reqs,
       requests w' = requests w ++ new_reqs
       ∧ Forall (λ req, CONV w `prefix_of` req ∧ req `prefix_of` CONV w')
                new_reqs)
  ∧ replies w' `suffix_of` replies w
  ∧ same_outside (project_root E) (disk w) (disk w').

(** The lines of input that start a round of [loop]. *)
Definition prompts (lines : list pystr) : list pystr :=
  filter (λ l, l ≠ []) lines.

(** A directory tree whose entries all have names a directory entry can
    have. *)
Fixpoint valid_tree (n : node) : bool :=
  match n with
  | File _ => true
  | Dir es =>
      (fix all (es : list (pystr * node)) : bool :=
         match es with
         | [] => true
         | (x, c) :: rest =>
             bool_decide (valid_name x) && valid_tree c && all rest
         end) es
  end.

(** The disk [fs'] has every file of [fs] other than [target] with the
    bytes it had, and every path of [fs] is in [fs'] what it was, a
    directory or a regular file. *)
Definition spares (target : fspath) (fs fs' : FS) : Prop :=
  (∀ q d, q ≠ target → stat fs q = Some (File d) → stat fs' q = Some (File d))
  ∧ (∀ q, is_dir fs q = true → is_dir fs' q = true)
  ∧ (∀ q, is_file fs q = true → is_file fs' q = true).

(** A response of the model that asks for no edit. *)
Definition reads_only (m : Message) : Prop :=
  ∀ id tool input, ToolUse id tool input ∈ content m → tool ≠ py "edit_file".

(** * Properties *)

(** ** The path sandbox *)

Lemma elem_of_parents (q p : fspath) :
  q ∈ parents p ↔ descendant q p.
Proof.
  unfold parents, descendant. rewrite elem_of_reverse, list_elem_of_fmap.
  split.
  - intros (n & -> & Hn). apply elem_of_seq in Hn as [_ Hn]. simpl in Hn.
    exists (drop n p). split.
    + intros Hd. apply (f_equal length) in Hd.
      rewrite length_drop in Hd. simpl in Hd. lia.
    + by rewrite take_drop.
  - intros (k & Hk & ->). exists (length q). split.
    + by rewrite take_app_length.
    + apply elem_of_seq. rewrite length_app. destruct k; [done|]. simpl. lia.
Qed.

Lemma classify_path_required : classify (ValueError msg_path_required) = InvalidPath.
Proof. reflexivity. Qed.

Lemma classify_absolute : classify (ValueError msg_absolute) = InvalidPath.
Proof. reflexivity. Qed.

Lemma classify_escape : classify (ValueError msg_escape) = PathEscape.
Proof. reflexivity. Qed.

(** The three ways [_resolve_relative] can go, by the tests it makes. *)
Lemma resolve_relative_cases (E : Env) (p : pystr) :
  (p = [] ∧ _resolve_relative E p = Raise (ValueError msg_path_required))
  ∨ (p ≠ [] ∧ is_absolute p = true
     ∧ _resolve_relative E p = Raise (ValueError msg_absolute))
  ∨ (p ≠ [] ∧ is_absolute p = false
     ∧ candidate E p ≠ project_root E
     ∧ ¬ descendant (project_root E) (candidate E p)
     ∧ _resolve_relative E p = Raise (ValueError msg_escape))
  ∨ (p ≠ [] ∧ is_absolute p = false
     ∧ (candidate E p = project_root E
        ∨ descendant (project_root E) (candidate E p))
     ∧ _resolve_relative E p = Ok (candidate E p)).
Proof.
  unfold _resolve_relative. fold (project_root E). fold (candidate E p).
  case_bool_decide as Hp; [by left|]. right.
  destruct (is_absolute p) eqn:Habs; [by left|]. right.
  case_bool_decide as Hin; case_bool_decide as Heq; simpl.
  - right. split_and!; try done. by left.
  - right. split_and!; try done. right. by apply elem_of_parents.
  - right. split_and!; try done. by left.
  - left. split_and!; try done. by rewrite <-elem_of_parents.
Qed.



(** Paths that climb out of [/home/proj] through [..]. *)
Example escape_parent :
  _resolve_relative sample_env (py "..") = Raise (ValueError msg_escape).
Proof. reflexivity. Qed.

Example escape_sibling :
  _resolve_relative sample_env (py "../other/file")
  = Raise (ValueError msg_escape).
Proof. reflexivity. Qed.

Example escape_deep :
  _resolve_relative sample_env (py "src/../../../etc/passwd")
  = Raise (ValueError msg_escape).
Proof. reflexivity. Qed.

(** A path that leaves the root and comes back is accepted. *)
Example leave_and_return :
  _resolve_relative sample_env (py "../proj/a.txt")
  = Ok [py "home"; py "proj"; py "a.txt"].
Proof. reflexivity. Qed.

Lemma removelast_subseteq (acc : fspath) : removelast acc ⊆ acc.
Proof.
  induction acc as [|x [|y acc] IH]; simpl; [done | |].
  - apply list_subseteq_nil.
  - simpl in IH. by apply list_subseteq_skip.
Qed.

Lemma foldl_resolve_step_no_dotdot (parts : list pystr) (acc : fspath) :
  py ".." ∉ acc → py ".." ∉ foldl resolve_step acc parts.
Proof.
  revert acc. induction parts as [|x parts IH]; intros acc Hacc; [done|].
  simpl. apply IH. unfold resolve_step. case_bool_decide as Hx.
  - intros Hin. by apply removelast_subseteq in Hin.
  - rewrite elem_of_app, list_elem_of_singleton. intros [?|?]; done.
Qed.

Lemma normalise_no_dotdot (parts : list pystr) : py ".." ∉ normalise parts.
Proof. apply foldl_resolve_step_no_dotdot. by intros ?%elem_of_nil. Qed.

Lemma descendant_irrefl (root : fspath) : ¬ descendant root root.
Proof.
  intros (below & Hne & Heq). apply (f_equal length) in Heq.
  rewrite length_app in Heq. destruct below; [done|]. simpl in Heq. lia.
Qed.

(** The claim C2 as written fails: ["."] is not empty, it is accepted, and
    it resolves to the project root itself. *)
Lemma nonempty_input_may_resolve_to_root :
  ¬ (∀ (E : Env) (p : pystr) (r : fspath),
       p ≠ [] → _resolve_relative E p = Ok r →
       descendant (project_root E) r).
Proof.
  intros H.
  apply (descendant_irrefl (project_root sample_env)).
  apply (H sample_env (py ".")); [done | reflexivity].
Qed.

Example cancelling_segments_give_root :
  _resolve_relative sample_env (py "src/..") = Ok (project_root sample_env).
Proof. reflexivity. Qed.

(** C2 (amended). A path accepted by [_resolve_relative] comes from a
    non-empty relative input, is normalised (no [..] is left in it), and
    is the project root itself or lies strictly below it. *)
Theorem accepted_path_within_root (E : Env) (p : pystr) (r : fspath) :
  _resolve_relative E p = Ok r →
  p ≠ [] ∧ is_absolute p = false
  ∧ (py ".." ∉ r)
  ∧ (project_root E `prefix_of` r)
  ∧ (r = project_root E ∨ descendant (project_root E) r).
Proof.
  intros Hr.
  destruct (resolve_relative_cases E p)
    as [[_ Hc]|[(_ & _ & Hc)|[(_ & _ & _ & _ & Hc)|(Hp & Ha & Hin & Hc)]]];
    rewrite Hc in Hr; try done.
  injection Hr as <-. split_and!; try done.
  - apply normalise_no_dotdot.
  - destruct Hin as [->|(below & _ & ->)]; [done|]. by exists below.
Qed.

Lemma accepted_path_within_root_witness :
  (py ".." ∉ [py "home"; py "proj"; py "src"; py "m.py"])
  ∧ descendant (project_root sample_env)
               [py "home"; py "proj"; py "src"; py "m.py"].
Proof.
  destruct (accepted_path_within_root sample_env (py "src/m.py")
              [py "home"; py "proj"; py "src"; py "m.py"])
    as (_ & _ & Hd & _ & Hin); [reflexivity|].
  split; [exact Hd|].
  destruct Hin as [Heq|Hin]; [discriminate Heq | exact Hin].
Defined.

(** ** Dispatch *)

Lemma TOOL_MAP_lookup (E : Env) (tool : pystr) :
  TOOL_MAP E !! tool =
    if decide (tool = py "edit_file") then Some (EDIT_FILE E)
    else if decide (tool = py "read_file") then Some (READ_FILE E)
    else if decide (tool = py "list_files") then Some (LIST_FILES E)
    else None.
Proof.
  unfold TOOL_MAP, tool_map, ALL_TOOLS. simpl.
  repeat (rewrite lookup_insert; case_decide; subst;
          [rewrite ?decide_True by done; done | rewrite decide_False by done]).
  apply lookup_empty.
Qed.

Lemma tool_result_ok_lookup (id out : pystr) :
  tool_result_ok id out !! py "type" = Some (VStr (py "tool_result"))
  ∧ tool_result_ok id out !! py "tool_use_id" = Some (VStr id)
  ∧ tool_result_ok id out !! py "content" = Some (VStr out)
  ∧ tool_result_ok id out !! py "is_error" = None
  ∧ tool_result_ok id out !! py "error" = None.
Proof. unfold tool_result_ok. split_and!; by simplify_map_eq. Qed.

Lemma tool_result_error_lookup (id text : pystr) :
  tool_result_error id text !! py "type" = Some (VStr (py "tool_result"))
  ∧ tool_result_error id text !! py "tool_use_id" = Some (VStr id)
  ∧ tool_result_error id text !! py "content" = Some (VStr text)
  ∧ tool_result_error id text !! py "is_error" = Some (VBool true).
Proof. unfold tool_result_error. split_and!; by simplify_map_eq. Qed.

(** Dispatch over any registry: a result block comes back, whatever the
    handler does. *)
Lemma run_tool_in_returns (E : Env) (registry : gmap pystr ToolSpec)
    (id tool : pystr) (payload : gmap pystr pystr) (fs : FS) :
  ∃ rb fs', run_tool_in E registry id tool payload fs = (Ok rb, fs')
    ∧ rb !! py "type" = Some (VStr (py "tool_result"))
    ∧ rb !! py "tool_use_id" = Some (VStr id).
Proof.
  unfold run_tool_in. destruct (registry !! tool) as [spec|].
  - destruct (fn spec payload fs) as [[out|e] fs'].
    + exists (tool_result_ok id out), fs'.
      split; [done|]. split; apply tool_result_ok_lookup.
    + exists (tool_result_error id (str_exn E e)), fs'.
      split; [done|]. split; apply tool_result_error_lookup.
  - eexists _, fs. split; [done|]. split; apply tool_result_error_lookup.
Qed.



(** ** The two copies of [run_tool] *)





(** ** Strings *)

Lemma startswith_spec (s pre : pystr) :
  startswith s pre = true ↔ ∃ rest, s = pre ++ rest.
Proof.
  revert s. induction pre as [|a pre IH]; intros s; simpl.
  - split; [intros _; by exists s | done].
  - destruct s as [|b s]; simpl.
    + split; [done | intros (rest & ?); done].
    + rewrite andb_true_iff, N.eqb_eq, IH. split.
      * intros (-> & rest & ->). by exists rest.
      * intros (rest & [= -> ->]). split; [done | by exists rest].
Qed.

Lemma replace_scan_skip (old new : pystr) (x rest : pystr) :
  replace_scan old new (length x) (x ++ rest) = replace_scan old new 0 rest.
Proof.
  induction x as [|c x IH]; simpl; [by destruct rest | exact IH].
Qed.

Lemma replace_scan_hit (old new : pystr) (c : N) (old' rest : pystr) :
  old = c :: old' →
  replace_scan old new 0 (old ++ rest) = new ++ replace_scan old new 0 rest.
Proof.
  intros ->. cbn [app replace_scan].
  assert (startswith (c :: old' ++ rest) (c :: old') = true) as ->.
  { apply startswith_spec. by exists rest. }
  cbn [length Nat.pred]. by rewrite replace_scan_skip.
Qed.

Lemma replace_scan_miss (old new : pystr) (c : N) (s : pystr) :
  startswith (c :: s) old = false →
  replace_scan old new 0 (c :: s) = c :: replace_scan old new 0 s.
Proof. intros H. cbn [replace_scan]. by rewrite H. Qed.




Lemma replace_scan_absent (old new : pystr) (s : pystr) :
  ¬ occurs old s → replace_scan old new 0 s = s.
Proof.
  induction s as [|c s IH]; intros Hno; [done|].
  destruct (startswith (c :: s) old) eqn:Hsw.
  - exfalso. apply Hno. apply startswith_spec in Hsw as (rest & ->).
    by exists [], rest.
  - rewrite replace_scan_miss by done. f_equal. apply IH.
    intros (pre & rest & ->). apply Hno. by exists (c :: pre), rest.
Qed.


Lemma str_replace_absent (s old new : pystr) :
  ¬ occurs old s → str_replace s old new = s.
Proof.
  intros Hno. unfold str_replace. destruct old as [|c old].
  - exfalso. apply Hno. by exists [], s.
  - by apply replace_scan_absent.
Qed.


(** ** The codecs *)

#[local] Ltac Zify.zify_post_hook ::= Z.to_euclidean_division_equations.

Ltac decide_bounds :=
  repeat match goal with
    | |- context [N.ltb ?a ?b] => destruct (N.ltb_spec a b); try lia
    | |- context [N.leb ?a ?b] => destruct (N.leb_spec a b); try lia
    | H : context [N.ltb ?a ?b] |- _ => destruct (N.ltb_spec a b); try lia
    | H : context [N.leb ?a ?b] |- _ => destruct (N.leb_spec a b); try lia
    end.

Ltac finish_decode :=
  cbn [app utf8_decode]; rewrite !N_ascii_embedding by lia; cbv zeta;
  unfold continuation; decide_bounds; cbn [andb negb]; congruence.

Lemma utf8_decode_encode_char (c : N) (b rest : bytes) :
  utf8_encode_char c = Some b →
  utf8_decode (b ++ rest) = decoded c (utf8_decode rest).
Proof.
  unfold utf8_encode_char. intros Hb.
  destruct (N.ltb_spec c 128); [|destruct (N.ltb_spec c 2048);
    [|destruct (N.ltb_spec c 65536); [|destruct (N.leb_spec c 1114111)]]].
  - injection Hb as <-. finish_decode.
  - injection Hb as <-.
    set (b0 := 192 + c / 64). set (b1 := 128 + c mod 64).
    assert (194 ≤ b0 ≤ 223 ∧ 128 ≤ b1 ≤ 191
            ∧ (b0 - 192) * 64 + (b1 - 128) = c) as (? & ? & ?)
      by (subst b0 b1; lia).
    clearbody b0 b1. finish_decode.
  - destruct ((55296 <=? c) && (c <=? 57343)) eqn:Hs; [done|].
    injection Hb as <-.
    rewrite andb_false_iff, !N.leb_gt in Hs.
    set (b0 := 224 + c / 4096). set (b1 := 128 + (c / 64) mod 64).
    set (b2 := 128 + c mod 64).
    assert (224 ≤ b0 ≤ 239 ∧ 128 ≤ b1 ≤ 191 ∧ 128 ≤ b2 ≤ 191
            ∧ (b0 - 224) * 4096 + (b1 - 128) * 64 + (b2 - 128) = c)
      as (? & ? & ? & Hv) by (subst b0 b1 b2; lia).
    clearbody b0 b1 b2.
    cbn [app utf8_decode]. rewrite !N_ascii_embedding by lia. cbv zeta.
    rewrite Hv. unfold continuation. decide_bounds; cbn [andb negb]; done.
  - injection Hb as <-.
    set (b0 := 240 + c / 262144). set (b1 := 128 + (c / 4096) mod 64).
    set (b2 := 128 + (c / 64) mod 64). set (b3 := 128 + c mod 64).
    assert (240 ≤ b0 ≤ 244 ∧ 128 ≤ b1 ≤ 191 ∧ 128 ≤ b2 ≤ 191
            ∧ 128 ≤ b3 ≤ 191
            ∧ (b0 - 240) * 262144 + (b1 - 128) * 4096
              + (b2 - 128) * 64 + (b3 - 128) = c)
      as (? & ? & ? & ? & Hv) by (subst b0 b1 b2 b3; lia).
    clearbody b0 b1 b2 b3.
    cbn [app utf8_decode]. rewrite !N_ascii_embedding by lia. cbv zeta.
    rewrite Hv. unfold continuation. decide_bounds; cbn [andb negb]; done.
  - done.
Qed.

Lemma utf8_decode_encode (s : pystr) (b : bytes) :
  utf8_encode s = Some b → utf8_decode b = Some s.
Proof.
  revert b. induction s as [|c s IH]; intros b; simpl.
  - by intros [= <-].
  - destruct (utf8_encode_char c) as [bc|] eqn:Hc; [|done].
    destruct (utf8_encode s) as [bs|]; [|done]. intros [= <-].
    rewrite (utf8_decode_encode_char c bc bs Hc). by rewrite (IH bs).
Qed.

Lemma encodable_cons (c : N) (s : pystr) :
  encodable (c :: s) ↔ scalar c ∧ encodable s.
Proof.
  unfold encodable, scalar. simpl.
  destruct (utf8_encode_char c), (utf8_encode s); split;
    try (intros [? ?]); try split; try done; by eexists.
Qed.

Lemma encodable_Forall (s : pystr) : encodable s ↔ Forall scalar s.
Proof.
  induction s as [|c s IH].
  - split; [constructor | by eexists].
  - rewrite encodable_cons, Forall_cons, IH. done.
Qed.

Lemma scalar_iff (c : N) :
  scalar c ↔ c ≤ 1114111 ∧ ¬ (55296 ≤ c ≤ 57343).
Proof.
  unfold scalar, utf8_encode_char.
  destruct (N.ltb_spec c 128); [split; [lia | by eexists]|].
  destruct (N.ltb_spec c 2048); [split; [lia | by eexists]|].
  destruct (N.ltb_spec c 65536).
  - destruct (N.leb_spec 55296 c), (N.leb_spec c 57343); cbn [andb];
      (split; [intros [? ?]; try done; lia | intros; try lia; by eexists]).
  - destruct (N.leb_spec c 1114111);
      (split; [intros [? ?]; try done; lia | intros; try lia; by eexists]).
Qed.

Lemma utf8_decode_scalar (b : bytes) (s : pystr) :
  utf8_decode b = Some s → Forall scalar s.
Proof.
  remember (length b) as n eqn:Hn. revert b s Hn.
  induction (lt_wf n) as [n _ IH]. intros b s Hn.
  destruct b as [|a0 r0]; cbn [utf8_decode]; [intros [= <-]; constructor|].
  cbv zeta. pose proof (N_ascii_bounded a0) as B0.
  set (b0 := N_of_ascii a0) in *.
  assert (∀ c r t, (length r < n)%nat → scalar c →
            decoded c (utf8_decode r) = Some t → Forall scalar t) as Hstep.
  { intros c r t Hlen Hc. destruct (utf8_decode r) as [t'|] eqn:Hr; [|done].
    intros [= <-]. constructor; [done|]. by apply (IH (length r) Hlen r). }
  destruct (N.ltb_spec b0 128).
  { apply Hstep; [subst n; simpl; lia | apply scalar_iff; lia]. }
  destruct ((194 <=? b0) && (b0 <=? 223)) eqn:H2.
  { destruct r0 as [|a1 r1]; [done|].
    destruct (continuation (N_of_ascii a1)) eqn:Hc; [|done].
    unfold continuation in Hc.
    rewrite !andb_true_iff, !N.leb_le in H2, Hc.
    apply Hstep; [subst n; simpl; lia | apply scalar_iff; lia]. }
  destruct ((224 <=? b0) && (b0 <=? 239)) eqn:H3.
  { destruct r0 as [|a1 [|a2 r2]]; [done|done|].
    match goal with |- context [if ?c then _ else _] => destruct c eqn:Hc end;
      [|done].
    unfold continuation in Hc.
    rewrite !andb_true_iff, negb_true_iff, andb_false_iff in Hc.
    rewrite !N.leb_le, !N.leb_gt in Hc.
    rewrite !andb_true_iff, !N.leb_le in H3.
    apply Hstep; [subst n; simpl; lia | apply scalar_iff; lia]. }
  destruct ((240 <=? b0) && (b0 <=? 244)) eqn:H4; [|done].
  destruct r0 as [|a1 [|a2 [|a3 r3]]]; [done|done|done|].
  match goal with |- context [if ?c then _ else _] => destruct c eqn:Hc end;
    [|done].
  rewrite !andb_true_iff, !N.leb_le in Hc.
  apply Hstep; [subst n; simpl; lia | apply scalar_iff; lia].
Qed.

Lemma latin1_decode_scalar (b : bytes) : Forall scalar (latin1_decode b).
Proof.
  unfold latin1_decode. apply Forall_fmap, Forall_forall. intros a _.
  simpl. pose proof (N_ascii_bounded a). apply scalar_iff. lia.
Qed.

Lemma universal_newlines_scalar (s : pystr) :
  Forall scalar s → Forall scalar (universal_newlines s).
Proof.
  remember (length s) as n eqn:Hn. revert s Hn.
  induction (lt_wf n) as [n _ IH]. intros s Hn Hs.
  assert (scalar 10) as H10 by (apply scalar_iff; lia).
  destruct s as [|c rest]; [constructor|]. cbn [universal_newlines].
  apply Forall_cons in Hs as [Hc Hrest].
  destruct (N.eqb c 13).
  - destruct rest as [|c' rest']; [by repeat constructor|].
    destruct (N.eqb c' 10); constructor; try done.
    + apply Forall_cons in Hrest as [_ Hrest'].
      apply (IH (length rest')); [subst n; simpl; lia | done | done].
    + apply (IH (length (c' :: rest'))); [subst n; simpl; lia | done | done].
  - constructor; [done|].
    apply (IH (length rest)); [subst n; simpl; lia | done | done].
Qed.

Lemma universal_newlines_id (s : pystr) :
  13 ∉ s → universal_newlines s = s.
Proof.
  induction s as [|c s IH]; intros Hs; [done|].
  apply not_elem_of_cons in Hs as [Hc Hs]. cbn [universal_newlines].
  destruct (N.eqb_spec c 13); [done|]. by rewrite IH.
Qed.

Lemma universal_newlines_no_cr (s : pystr) : 13 ∉ universal_newlines s.
Proof.
  remember (length s) as n eqn:Hn. revert s Hn.
  induction (lt_wf n) as [n _ IH]. intros s Hn.
  destruct s as [|c rest]; cbn [universal_newlines]; [by intros ?%elem_of_nil|].
  destruct (N.eqb_spec c 13).
  - destruct rest as [|c' rest']; [by intros [?|?%elem_of_nil]%elem_of_cons|].
    destruct (N.eqb c' 10); apply not_elem_of_cons; (split; [done|]).
    + apply (IH (length rest')); [subst n; simpl; lia | done].
    + apply (IH (length (c' :: rest'))); [subst n; simpl; lia | done].
  - apply not_elem_of_cons. split; [done|].
    apply (IH (length rest)); [subst n; simpl; lia | done].
Qed.

Lemma replace_scan_scalar (old new : pystr) (k : nat) (s : pystr) :
  Forall scalar new → Forall scalar s →
  Forall scalar (replace_scan old new k s).
Proof.
  intros Hnew. revert k. induction s as [|c s IH]; intros k Hs; [constructor|].
  apply Forall_cons in Hs as [Hc Hs]. cbn [replace_scan].
  destruct k as [|k]; [|by apply IH].
  destruct (startswith (c :: s) old).
  - apply Forall_app. split; [done | by apply IH].
  - constructor; [done | by apply IH].
Qed.

Lemma str_replace_scalar (s old new : pystr) :
  Forall scalar new → Forall scalar s → Forall scalar (str_replace s old new).
Proof.
  intros Hnew Hs. unfold str_replace. destruct old.
  - apply Forall_app. split; [done|].
    apply Forall_flat_map. eapply Forall_impl; [exact Hs|].
    intros c Hc. simpl. by constructor.
  - by apply replace_scan_scalar.
Qed.

(** ** The file system *)

Lemma assoc_set_entry (name : pystr) (v : node) (es : list (pystr * node)) :
  assoc name (set_entry name v es) = Some v.
Proof.
  induction es as [|[k w] es IH]; simpl.
  - by rewrite bool_decide_eq_true_2.
  - case_bool_decide as Hk; simpl.
    + by rewrite bool_decide_eq_true_2.
    + by rewrite bool_decide_eq_false_2.
Qed.

Lemma lookup_node_app (n : node) (q r : fspath) :
  lookup_node n (q ++ r) =
    match lookup_node n q with
    | Some m => lookup_node m r
    | None => None
    end.
Proof.
  revert n. induction q as [|x q IH]; intros n; simpl; [done|].
  destruct n as [d|es]; [done|]. destruct (assoc x es); [apply IH | done].
Qed.

Lemma store_node_lookup (p : fspath) (data : bytes) (n n' : node) :
  store_node p data n = inr n' → lookup_node n' p = Some (File data).
Proof.
  revert n n'. induction p as [|x p IH]; intros n n'; simpl.
  - destruct n; [by intros [= <-] | done].
  - destruct n as [d|es]; [done|].
    destruct (assoc x es) as [c|].
    + destruct (store_node p data c) as [e|c'] eqn:Hc; [done|].
      intros [= <-]. simpl. rewrite assoc_set_entry. by eapply IH.
    + destruct p; [|done]. intros [= <-]. simpl. by rewrite assoc_set_entry.
Qed.

Lemma store_node_Dir (p : fspath) (data : bytes) (es : list (pystr * node))
    (n' : node) :
  store_node p data (Dir es) = inr n' → ∃ es', n' = Dir es'.
Proof.
  destruct p as [|x p]; simpl; [done|].
  destruct (assoc x es) as [c|].
  - destruct (store_node p data c); [done|]. intros [= <-]. by eexists.
  - destruct p; [|done]. intros [= <-]. by eexists.
Qed.

Lemma store_node_file (p : fspath) (data d : bytes) (n : node) :
  lookup_node n p = Some (File d) → ∃ n', store_node p data n = inr n'.
Proof.
  revert n. induction p as [|x p IH]; intros n; simpl.
  - intros [= ->]. by eexists.
  - destruct n as [d'|es]; [done|]. destruct (assoc x es) as [c|]; [|done].
    intros Hc. destruct (IH c Hc) as (c' & ->). by eexists.
Qed.



Lemma lookup_node_empty_dir (x : pystr) (p : fspath) :
  lookup_node (Dir []) (x :: p) = None.
Proof. done. Qed.



Lemma store_node_under_file (q : fspath) (name : pystr) (data d : bytes)
    (n : node) :
  lookup_node n q = Some (File d) →
  store_node (q ++ [name]) data n = inl ENOTDIR.
Proof.
  revert n. induction q as [|x q IH]; intros n; simpl.
  - by intros [= ->].
  - destruct n as [d'|es]; [done|]. destruct (assoc x es) as [c|]; [|done].
    intros Hc. by rewrite (IH c Hc).
Qed.


Lemma store_node_errno (q : fspath) (name : pystr) (data : bytes) (n : node)
    (e : errno) :
  store_node (q ++ [name]) data n = inl e →
  lookup_node n (q ++ [name]) = None →
  is_Some (lookup_node n q) →
  e = ENOTDIR.
Proof.
  revert n. induction q as [|x q IH]; intros n; simpl.
  - destruct n as [d|es]; [by intros [= <-]|].
    destruct (assoc name es); [done|done].
  - destruct n as [d|es]; [by intros [= <-]|].
    destruct (assoc x es) as [c|]; [|by intros _ _ [? ?]].
    destruct (store_node (q ++ [name]) data c) eqn:Hc; [|done].
    intros [= <-]. by apply IH.
Qed.

Lemma store_file (fs : FS) (p : fspath) (d data : bytes) :
  stat fs p = Some (File d) →
  ∃ fs', store p data fs = (Ok tt, fs') ∧ stat fs' p = Some (File data).
Proof.
  unfold stat, store. intros Hp.
  destruct (store_node_file p data d (Dir fs) Hp) as (n' & Hn').
  rewrite Hn'. destruct (store_node_Dir _ _ _ _ Hn') as (fs' & ->).
  exists fs'. split; [done|]. by eapply store_node_lookup.
Qed.


Lemma write_text_file (fs : FS) (p : fspath) (d : bytes) (text : pystr) :
  stat fs p = Some (File d) →
  ∃ fs', stat fs' p = Some (File (default [] (utf8_encode text)))
    ∧ write_text p text fs =
        (match utf8_encode text with
         | Some _ => Ok tt
         | None => Raise (UnicodeEncodeError text)
         end, fs').
Proof.
  intros Hp. unfold write_text, bind.
  destruct (store_file fs p d [] Hp) as (fs1 & -> & H1).
  destruct (utf8_encode text) as [data|]; simpl.
  - destruct (store_file fs1 p [] data H1) as (fs2 & -> & H2). by exists fs2.
  - by exists fs1.
Qed.



Lemma store_under_file (fs : FS) (q : fspath) (name : pystr) (data d : bytes) :
  stat fs q = Some (File d) →
  store (q ++ [name]) data fs = (Raise (OSError ENOTDIR (q ++ [name])), fs).
Proof.
  unfold stat, store. intros Hq.
  by rewrite (store_node_under_file q name data d (Dir fs) Hq).
Qed.

Lemma read_with_fallback (fs : FS) (p : fspath) (data : bytes) :
  stat fs p = Some (File data) →
  except_UnicodeDecodeError (read_text p utf_8) (read_text p latin_1) fs
  = (Ok (file_text data), fs).
Proof.
  intros Hp. unfold except_UnicodeDecodeError, read_text, file_text.
  rewrite Hp. destruct (utf8_decode data); simpl; [done|]. by rewrite Hp.
Qed.

Section EditFile.
Context (E : Env) (inp : gmap pystr pystr) (p o n : pystr) (target : fspath).
Hypothesis Hpath : inp !! py "path" = Some p.
Hypothesis Hold : inp !! py "old_str" = Some o.
Hypothesis Hnew : inp !! py "new_str" = Some n.
Hypothesis Hres : _resolve_relative E p = Ok target.



Lemma edit_file_existing (fs : FS) (data : bytes) :
  stat fs target = Some (File data) →
  let new_content := str_replace (file_text data) o n in
  ∃ fs',
    stat fs' target = Some (File (default [] (utf8_encode new_content)))
    ∧ edit_file E inp fs =
        (match utf8_encode new_content with
         | Some _ => Ok (py "Successfully edited file: " ++ p)
         | None => Raise (UnicodeEncodeError new_content)
         end, fs').
Proof.
  intros Hs new_content.
  destruct (write_text_file fs target data new_content Hs) as (fs' & Hs' & Hw).
  exists fs'. split; [done|].
  unfold edit_file, bind, lift, query, getitem, raise, ret, exists_, is_dir.
  rewrite Hpath, Hold, Hnew, Hres.
  repeat (progress cbn [negb andb] || rewrite Hs).
  rewrite (read_with_fallback fs target data Hs).
  fold new_content. rewrite Hw. by destruct (utf8_encode new_content).
Qed.

End EditFile.

Lemma read_file_of_file (E : Env) (inp : gmap pystr pystr) (p : pystr)
    (target : fspath) (fs : FS) (data : bytes) :
  inp !! py "path" = Some p → _resolve_relative E p = Ok target →
  stat fs target = Some (File data) →
  read_file E inp fs = (Ok (file_text data), fs).
Proof.
  intros Hp Hres Hs.
  unfold read_file, bind, lift, query, getitem, raise, exists_, is_dir.
  rewrite Hp, Hres. repeat (progress cbn [negb andb] || rewrite Hs).
  by apply read_with_fallback.
Qed.

Lemma file_text_encoded (text : pystr) (data : bytes) :
  utf8_encode text = Some data → file_text data = universal_newlines text.
Proof.
  intros H. unfold file_text. by rewrite (utf8_decode_encode text data H).
Qed.

Lemma file_text_scalar (data : bytes) : Forall scalar (file_text data).
Proof.
  unfold file_text. apply universal_newlines_scalar.
  destruct (utf8_decode data) as [s|] eqn:Hd; simpl.
  - by eapply utf8_decode_scalar.
  - apply latin1_decode_scalar.
Qed.

Lemma file_text_no_cr (data : bytes) : 13 ∉ file_text data.
Proof. apply universal_newlines_no_cr. Qed.

(** ** [edit_file] *)





(** ** Creating a file and reading it back *)




(** ** [list_files]: the directory it scans *)

Lemma ignore_lines_cases (path : fspath) (fs : FS) :
  (∃ lines, ignore_lines path fs = (Ok lines, fs))
  ∨ (∃ data, ignore_lines path fs = (Raise (UnicodeDecodeError data), fs)).
Proof.
  unfold ignore_lines, bind, query, ret, is_file, read_text.
  destruct (stat fs path) as [[data|es]|] eqn:Hs; rewrite ?Hs;
    [|left; by eexists|left; by eexists].
  destruct (utf8_decode data); [left | right]; by eexists.
Qed.

Lemma bind_Ok {A B} (m : io A) (k : A → io B) (fs fs' : FS) (a : A) :
  m fs = (Ok a, fs') → bind m k fs = k a fs'.
Proof. unfold bind. by intros ->. Qed.

Lemma bind_Raise {A B} (m : io A) (k : A → io B) (fs fs' : FS) (e : exn) :
  m fs = (Raise e, fs') → bind m k fs = (Raise e, fs').
Proof. unfold bind. by intros ->. Qed.

Lemma _get_gitignore_cases (E : Env) (root : fspath) (fs : FS) :
  (∃ ignore, _get_gitignore E root fs = (Ok ignore, fs))
  ∨ (∃ data, _get_gitignore E root fs = (Raise (UnicodeDecodeError data), fs)).
Proof.
  unfold _get_gitignore.
  destruct (ignore_lines_cases (root ++ Path_parts (py ".gitignore")) fs)
    as [(l1 & H1)|(d & H1)];
    [rewrite (bind_Ok _ _ _ _ _ H1)
    | rewrite (bind_Raise _ _ _ _ _ H1); right; by eexists].
  destruct (ignore_lines_cases (root ++ Path_parts (py ".git/info/exclude")) fs)
    as [(l2 & H2)|(d & H2)];
    [rewrite (bind_Ok _ _ _ _ _ H2)
    | rewrite (bind_Raise _ _ _ _ _ H2); right; by eexists].
  destruct (core_excludesFile E) as [g|].
  - destruct (ignore_lines_cases g fs) as [(l3 & H3)|(d & H3)].
    + rewrite (bind_Ok _ _ _ _ _ H3). left. by eexists.
    + rewrite (bind_Raise _ _ _ _ _ H3). right. by eexists.
  - left. by eexists.
Qed.

Lemma list_files_cases (E : Env) (inp : gmap pystr pystr) (fs : FS) :
  let base_dir := resolve E (default (py ".") (inp !! py "path")) in
  match stat fs base_dir with
  | None =>
      list_files E inp fs
      = (Raise (FileNotFoundError
                  (py "'" ++ str_path base_dir ++ py "' does not exist")), fs)
  | Some (File _) => list_files E inp fs = (Ok (json_dumps []), fs)
  | Some (Dir es) =>
      (∃ ignore, _get_gitignore E base_dir fs = (Ok ignore, fs)
         ∧ list_files E inp fs
           = (Ok (json_dumps (sorted (walk ignore [] (Dir es)))), fs))
      ∨ (∃ data, _get_gitignore E base_dir fs
                 = (Raise (UnicodeDecodeError data), fs)
           ∧ list_files E inp fs = (Raise (UnicodeDecodeError data), fs))
  end.
Proof.
  intros base_dir. unfold list_files. fold base_dir.
  destruct (stat fs base_dir) as [[data|es]|] eqn:Hs.
  - rewrite (bind_Ok _ _ fs fs true) by (unfold query, exists_; by rewrite Hs).
    cbn [negb].
    by rewrite (bind_Ok _ _ fs fs false) by (unfold query, is_dir; by rewrite Hs).
  - rewrite (bind_Ok _ _ fs fs true) by (unfold query, exists_; by rewrite Hs).
    cbn [negb].
    rewrite (bind_Ok _ _ fs fs true) by (unfold query, is_dir; by rewrite Hs).
    cbn [negb].
    destruct (_get_gitignore_cases E base_dir fs) as [(ig & Hg)|(d & Hg)].
    + left. exists ig. split; [done|]. rewrite (bind_Ok _ _ _ _ _ Hg).
      by rewrite (bind_Ok _ _ fs fs (Dir es))
        by (unfold query; by rewrite Hs).
    + right. exists d. split; [done|]. by rewrite (bind_Raise _ _ _ _ _ Hg).
  - by rewrite (bind_Ok _ _ fs fs false)
      by (unfold query, exists_; by rewrite Hs).
Qed.



Example list_files_outside_the_root :
  fails_with (_resolve_relative sample_env (py "../../etc")) PathEscape
  ∧ list_files sample_env (<[py "path" := py "../../etc"]> ∅) sample_disk
    = (Ok (json_dumps [py "passwd"]), sample_disk).
Proof. split; [by eexists | by vm_compute]. Qed.

(** ** [list_files]: the walk *)

Lemma node_ind' (P : node → Prop) :
  (∀ d, P (File d)) →
  (∀ es, Forall (λ e, P e.2) es → P (Dir es)) →
  ∀ n, P n.
Proof.
  intros Hfile Hdir. fix IH 1. intros [d|es]; [apply Hfile|].
  apply Hdir. induction es as [|[k c] es IHes]; constructor.
  - apply IH.
  - apply IHes.
Qed.

Lemma wf_node_Dir (es : list (pystr * node)) :
  wf_node (Dir es) ↔ NoDup (map fst es) ∧ Forall (λ e, wf_node e.2) es.
Proof.
  simpl. apply and_iff_compat_l.
  induction es as [|[k c] es IH]; [by split; [constructor|]|].
  rewrite Forall_cons, IH. done.
Qed.

Lemma list_remove_middle (d : pystr) (xs l : list pystr) :
  d ∉ xs → list_remove d (xs ++ d :: l) = xs ++ l.
Proof.
  induction xs as [|x xs IH]; intros Hd; simpl.
  - by rewrite bool_decide_eq_true_2.
  - apply not_elem_of_cons in Hd as [Hne Hd].
    rewrite bool_decide_eq_false_2 by done. by rewrite IH.
Qed.

Section WalkFacts.
Context (ignore : pystr → bool).

(** The loop that removes the ignored names from [dirs] while it runs
    over a copy of it leaves the names that are not ignored, in order. *)
Lemma prune_dirs_filter (rel : list pystr) (dirs : list pystr) :
  prune_dirs ignore rel dirs = filter (kept ignore rel) dirs.
Proof.
  unfold prune_dirs.
  enough (∀ seen l,
            foldl (λ ds d, if ignore (as_posix (rel ++ [d]) ++ [slash])
                           then list_remove d ds else ds)
                  (filter (kept ignore rel) seen ++ l) l
            = filter (kept ignore rel) (seen ++ l)) as H by apply (H [] dirs).
  intros seen l. revert seen. induction l as [|d l IH]; intros seen.
  - simpl. by rewrite !app_nil_r.
  - cbn [foldl].
    replace (seen ++ d :: l) with ((seen ++ [d]) ++ l)
      by (by rewrite <-app_assoc).
    rewrite <-IH. f_equal.
    destruct (ignore (as_posix (rel ++ [d]) ++ [slash])) eqn:Hd.
    + rewrite list_remove_middle.
      * rewrite filter_app, (filter_cons_False (kept ignore rel) d []).
        -- by rewrite filter_nil, app_nil_r.
        -- unfold kept. by rewrite Hd.
      * intros [Hk _]%list_elem_of_filter. unfold kept in Hk. congruence.
    + rewrite filter_app, (filter_cons_True (kept ignore rel) d []) by done.
      by rewrite filter_nil, <-app_assoc.
Qed.

Lemma elem_of_subdirs (es : list (pystr * node)) (d : pystr) :
  d ∈ subdirs es ↔ ∃ sub, (d, Dir sub) ∈ es.
Proof.
  unfold subdirs. rewrite list_elem_of_In, in_flat_map. split.
  - intros ([k [b|sub]] & Hin & Hd); simpl in Hd; [done|].
    destruct Hd as [<-|[]]. exists sub. by apply list_elem_of_In.
  - intros (sub & Hin). exists (d, Dir sub).
    split; [by apply list_elem_of_In | by left].
Qed.

Lemma elem_of_nondirs (es : list (pystr * node)) (d : pystr) :
  d ∈ nondirs es ↔ ∃ b, (d, File b) ∈ es.
Proof.
  unfold nondirs. rewrite list_elem_of_In, in_flat_map. split.
  - intros ([k [b|sub]] & Hin & Hd); simpl in Hd; [|done].
    destruct Hd as [<-|[]]. exists b. by apply list_elem_of_In.
  - intros (b & Hin). exists (d, File b).
    split; [by apply list_elem_of_In | by left].
Qed.

Lemma assoc_Some_elem (name : pystr) (c : node) (es : list (pystr * node)) :
  assoc name es = Some c → (name, c) ∈ es.
Proof.
  induction es as [|[k v] es IH]; simpl; [done|].
  case_bool_decide as Hk.
  - intros [= ->]. subst. by left.
  - intros H. right. by apply IH.
Qed.

Lemma assoc_NoDup (name : pystr) (c : node) (es : list (pystr * node)) :
  NoDup (map fst es) → (name, c) ∈ es → assoc name es = Some c.
Proof.
  induction es as [|[k v] es IH]; simpl; intros Hnd Hin.
  - by apply elem_of_nil in Hin.
  - apply NoDup_cons in Hnd as [Hk Hnd].
    apply elem_of_cons in Hin as [[= -> ->]|Hin].
    + by rewrite bool_decide_eq_true_2.
    + rewrite bool_decide_eq_false_2; [by apply IH|].
      intros ->. apply Hk. apply list_elem_of_fmap. by exists (name, c).
Qed.

Lemma elem_of_report (rel : list pystr) (es : list (pystr * node))
    (names : list pystr) (r : pystr) :
  r ∈ report ignore rel es names ↔
  ∃ name, name ∈ names
    ∧ ignore (as_posix (rel ++ [name])) = false
    ∧ r = match assoc name es with
          | Some (Dir _) => as_posix (rel ++ [name]) ++ [slash]
          | _ => as_posix (rel ++ [name])
          end.
Proof.
  unfold report. rewrite list_elem_of_In, in_flat_map. split.
  - intros (name & Hin & Hr). exists name.
    split; [by apply list_elem_of_In|].
    destruct (ignore (as_posix (rel ++ [name]))); [done|]. split; [done|].
    destruct (assoc name es) as [[b|sub]|]; by destruct Hr as [<-|[]].
  - intros (name & Hin & Hig & ->). exists name.
    split; [by apply list_elem_of_In|]. rewrite Hig.
    destruct (assoc name es) as [[b|sub]|]; by left.
Qed.

Lemma elem_of_walk_Dir (rel : list pystr) (es : list (pystr * node))
    (r : pystr) :
  r ∈ walk ignore rel (Dir es) ↔
  r ∈ report ignore rel es
        (nondirs es ++ prune_dirs ignore rel (subdirs es))
  ∨ ∃ d sub, (d, Dir sub) ∈ es
      ∧ d ∈ prune_dirs ignore rel (subdirs es)
      ∧ r ∈ walk ignore (rel ++ [d]) (Dir sub).
Proof.
  cbn [walk]. rewrite elem_of_app. apply or_iff_compat_l.
  rewrite list_elem_of_In, in_flat_map. split.
  - intros ([d [b|sub]] & Hin & Hr); [done|].
    case_bool_decide as Hd; [|done].
    exists d, sub. split; [by apply list_elem_of_In|].
    split; [done | by apply list_elem_of_In].
  - intros (d & sub & Hin & Hd & Hr). exists (d, Dir sub).
    split; [by apply list_elem_of_In|].
    rewrite bool_decide_eq_true_2 by done. by apply list_elem_of_In.
Qed.

Lemma as_posix_snoc_nonempty (rel : list pystr) (name : pystr) :
  rel ++ [name] ≠ [].
Proof. by destruct rel. Qed.

(** [walk] reports exactly the entries that are to be listed. *)
Lemma walk_listed (n : node) :
  wf_node n →
  ∀ rel r, r ∈ walk ignore rel n ↔ listed ignore n rel r.
Proof.
  induction n as [b|es IH] using node_ind'; intros Hwf rel r.
  - simpl. split; [by intros ?%elem_of_nil|].
    intros ([|x comps] & n & Hne & Hl & _); done.
  - apply wf_node_Dir in Hwf as [Hnd Hsub].
    rewrite elem_of_walk_Dir, elem_of_report, prune_dirs_filter. split.
    + intros [(name & Hin & Hig & ->)|(d & sub & Hin & Hd & Hr)].
      * apply elem_of_app in Hin as [Hin|Hin].
        -- apply elem_of_nondirs in Hin as (b & Hin).
           pose proof (assoc_NoDup _ _ _ Hnd Hin) as Ha. rewrite Ha.
           exists [name], (File b). split_and!; try done.
           ++ simpl. by rewrite Ha.
           ++ intros q Hq [k Hpk] Hne. destruct q as [|x [|y q]]; try done.
              ** simpl in Hpk. destruct k; [|done]. by simplify_eq.
        -- apply list_elem_of_filter in Hin as [Hk Hin].
           apply elem_of_subdirs in Hin as (sub & Hin).
           pose proof (assoc_NoDup _ _ _ Hnd Hin) as Ha. rewrite Ha.
           exists [name], (Dir sub). split_and!; try done.
           ++ simpl. by rewrite Ha.
           ++ intros q Hq [k Hpk] Hne. destruct q as [|x [|y q]]; try done.
              ** simpl in Hpk. destruct k; [|done]. by simplify_eq.
      * apply list_elem_of_filter in Hd as [Hk _].
        pose proof (assoc_NoDup _ _ _ Hnd Hin) as Ha.
        rewrite Forall_forall in IH, Hsub.
        apply (IH _ Hin (Hsub _ Hin)) in Hr
          as (comps & n & Hne & Hl & Hpre & Hig & Hn).
        exists (d :: comps), n. split_and!; try done.
        -- simpl. by rewrite Ha.
        -- intros q Hq [k Hpk] Hqne. destruct q as [|x q]; [done|].
           simpl in Hpk. injection Hpk as <- Hpk.
           destruct q as [|y q]; [exact Hk|].
           replace (rel ++ d :: y :: q) with ((rel ++ [d]) ++ y :: q)
             by (by rewrite <-app_assoc).
           apply Hpre; [done | by exists k | congruence].
        -- by replace (rel ++ d :: comps) with ((rel ++ [d]) ++ comps)
             by (by rewrite <-app_assoc).
        -- by replace (rel ++ d :: comps) with ((rel ++ [d]) ++ comps)
             by (by rewrite <-app_assoc).
    + intros ([|name comps] & n & Hne & Hl & Hpre & Hig & Hn); [done|].
      simpl in Hl. destruct (assoc name es) as [c|] eqn:Ha; [|done].
      pose proof (assoc_Some_elem _ _ _ Ha) as Hin.
      destruct comps as [|x comps].
      * left. exists name. simpl in Hl. injection Hl as ->.
        rewrite Ha. split; [|by destruct n as [b|sub]; [|destruct Hn]].
        apply elem_of_app. destruct n as [b|sub].
        -- left. apply elem_of_nondirs. by exists b.
        -- right. apply list_elem_of_filter. split; [by destruct Hn|].
           apply elem_of_subdirs. by exists sub.
      * right. destruct c as [b|sub]; [done|].
        assert (kept ignore rel name) as Hk.
        { apply Hpre; [done | by exists (x :: comps) | done]. }
        exists name, sub. split; [done|]. split.
        { apply list_elem_of_filter. split; [done|].
          apply elem_of_subdirs. by exists sub. }
        rewrite Forall_forall in IH, Hsub.
        apply (IH _ Hin (Hsub _ Hin)).
        exists (x :: comps), n. split_and!; try done.
        -- intros q Hq [k Hk'] Hqne.
           replace ((rel ++ [name]) ++ q) with (rel ++ name :: q)
             by (by rewrite <-app_assoc).
           apply Hpre; [done | exists k; simpl; by rewrite Hk' | congruence].
        -- by replace ((rel ++ [name]) ++ x :: comps)
             with (rel ++ name :: x :: comps) by (by rewrite <-app_assoc).
        -- by replace ((rel ++ [name]) ++ x :: comps)
             with (rel ++ name :: x :: comps) by (by rewrite <-app_assoc).
Qed.
End WalkFacts.

(** ** [list_files]: the order of the result *)

Lemma str_leb_refl (a : pystr) : str_leb a a = true.
Proof.
  induction a as [|x a IH]; [done|]. simpl.
  by rewrite N.ltb_irrefl.
Qed.

#[global] Instance str_le_total : Total str_le.
Proof.
  intros a. unfold str_le. induction a as [|x a IH]; intros [|y b]; simpl;
    [by left | by left | by right |].
  destruct (N.ltb_spec x y), (N.ltb_spec y x); try lia; auto.
Qed.

#[global] Instance str_le_trans : Transitive str_le.
Proof.
  intros a. unfold str_le.
  induction a as [|x a IH]; intros [|y b] [|z c]; simpl; try done.
  destruct (N.ltb_spec x y), (N.ltb_spec y x), (N.ltb_spec y z),
    (N.ltb_spec z y), (N.ltb_spec x z), (N.ltb_spec z x);
    try done; try lia.
  apply IH.
Qed.

#[global] Instance str_le_antisymm : AntiSymm (=) str_le.
Proof.
  intros a. unfold str_le.
  induction a as [|x a IH]; intros [|y b]; simpl; try done.
  destruct (N.ltb_spec x y), (N.ltb_spec y x); try done; try lia.
  intros Hab Hba. f_equal; [lia | by apply IH].
Qed.

Lemma sorted_Sorted (l : list pystr) : Sorted str_le (sorted l).
Proof. apply Sorted_merge_sort, _. Qed.

Lemma sorted_Permutation (l : list pystr) : sorted l ≡ₚ l.
Proof. apply merge_sort_Permutation. Qed.

Lemma sorted_unique (l1 l2 : list pystr) :
  l1 ≡ₚ l2 → sorted l1 = sorted l2.
Proof.
  intros Hp. apply (Sorted_unique str_le); try apply sorted_Sorted.
  by rewrite !sorted_Permutation.
Qed.

(** ** [list_files]: the order of the directory entries does not matter *)

Lemma same_contents_File (b : bytes) (n : node) :
  same_contents (File b) n → n = File b.
Proof. by inversion 1. Qed.

Lemma same_contents_Dir (es : list (pystr * node)) (n : node) :
  same_contents (Dir es) n →
  ∃ es' es'',
    n = Dir es''
    ∧ Forall2 (λ e e', e.1 = e'.1 ∧ same_contents e.2 e'.2) es es'
    ∧ es' ≡ₚ es''.
Proof. inversion 1; subst. by eexists _, _. Qed.

Lemma same_contents_is_Dir (n n' : node) :
  same_contents n n' → is_Dir n = is_Dir n'.
Proof. by destruct 1. Qed.

Lemma flat_map_Forall2_Permutation {A B C} (f : A → list C) (g : B → list C)
    (R : A → B → Prop) (l : list A) (k : list B) :
  (∀ a b, R a b → f a ≡ₚ g b) →
  Forall2 R l k → flat_map f l ≡ₚ flat_map g k.
Proof.
  intros Hfg. induction 1 as [|a b l k Hab _ IH]; simpl; [done|].
  by rewrite (Hfg a b Hab), IH.
Qed.

Lemma flat_map_ext_Permutation {A C} (f g : A → list C) (l k : list A) :
  (∀ a, a ∈ l → f a = g a) → l ≡ₚ k → flat_map f l ≡ₚ flat_map g k.
Proof.
  intros Hfg Hp. rewrite <-(Permutation_flat_map g Hp).
  clear Hp. induction l as [|a l IH]; simpl; [done|].
  rewrite (Hfg a) by (by left). rewrite IH; [done|].
  intros b Hb. apply Hfg. by right.
Qed.

Lemma assoc_None_names (name : pystr) (es : list (pystr * node)) :
  assoc name es = None ↔ name ∉ map fst es.
Proof.
  induction es as [|[k v] es IH]; simpl; [split; [by intros _ ?%elem_of_nil|done]|].
  case_bool_decide as Hk.
  - split; [done|]. intros Hn. destruct Hn. subst. by left.
  - rewrite not_elem_of_cons. split.
    + intros H. split; [congruence | by apply IH].
    + intros [_ H]. by apply IH.
Qed.

Lemma assoc_Permutation (name : pystr) (es es' : list (pystr * node)) :
  NoDup (map fst es) → es ≡ₚ es' → assoc name es = assoc name es'.
Proof.
  intros Hnd Hp.
  assert (NoDup (map fst es')) as Hnd'.
  { by rewrite <-Hp. }
  destruct (assoc name es) as [c|] eqn:Ha.
  - symmetry. apply assoc_NoDup; [done|]. rewrite <-Hp.
    by apply assoc_Some_elem.
  - symmetry. apply assoc_None_names. rewrite <-Hp.
    by apply assoc_None_names.
Qed.

Section WalkOrder.
Context (ignore : pystr → bool).

Lemma subdirs_Forall2 (es es' : list (pystr * node)) :
  Forall2 (λ e e', e.1 = e'.1 ∧ same_contents e.2 e'.2) es es' →
  subdirs es = subdirs es' ∧ nondirs es = nondirs es'
  ∧ map fst es = map fst es'
  ∧ ∀ name, is_Dir <$> assoc name es = is_Dir <$> assoc name es'.
Proof.
  induction 1 as [|[k c] [k' c'] es es' [Hk Hc] _ (IH1 & IH2 & IH3 & IH4)];
    [done|].
  simpl in Hk, Hc. subst k'.
  pose proof (same_contents_is_Dir _ _ Hc) as Hd.
  simpl. split_and!.
  - destruct c, c'; simpl in *; try done; by rewrite IH1.
  - destruct c, c'; simpl in *; try done; by rewrite IH2.
  - by rewrite IH3.
  - intros name. case_bool_decide; [simpl; by rewrite Hd | apply IH4].
Qed.

Lemma report_ext (rel : list pystr) (es es' : list (pystr * node))
    (names : list pystr) :
  (∀ name, is_Dir <$> assoc name es = is_Dir <$> assoc name es') →
  report ignore rel es names = report ignore rel es' names.
Proof.
  intros Hk. unfold report. induction names as [|name names IH]; [done|].
  simpl. rewrite IH. f_equal.
  destruct (ignore (as_posix (rel ++ [name]))); [done|].
  specialize (Hk name).
  destruct (assoc name es) as [[?|?]|], (assoc name es') as [[?|?]|];
    simpl in Hk; by simplify_eq.
Qed.

Lemma report_Permutation (rel : list pystr) (es : list (pystr * node))
    (names names' : list pystr) :
  names ≡ₚ names' →
  report ignore rel es names ≡ₚ report ignore rel es names'.
Proof. intros Hp. unfold report. by apply Permutation_flat_map. Qed.

(** The walk of two trees with the same contents reports the same paths,
    up to their order. *)
Lemma walk_same_contents (n : node) :
  ∀ n' rel, wf_node n → same_contents n n' →
            walk ignore rel n ≡ₚ walk ignore rel n'.
Proof.
  induction n as [b|es IH] using node_ind'; intros n' rel Hwf Hsame.
  - by rewrite (same_contents_File _ _ Hsame).
  - apply same_contents_Dir in Hsame as (es' & es'' & -> & Hpt & Hperm).
    apply wf_node_Dir in Hwf as [Hnd Hsub].
    destruct (subdirs_Forall2 _ _ Hpt) as (Hsd & Hnd' & Hnames & Hkind).
    assert (walk ignore rel (Dir es) ≡ₚ walk ignore rel (Dir es')) as ->.
    { cbn [walk]. rewrite <-Hsd, <-Hnd'.
      rewrite (report_ext rel es es' _ Hkind).
      apply Permutation_app; [done|].
      rewrite Forall_forall in IH, Hsub.
      assert (Forall2 (λ e e', e ∈ es ∧ e.1 = e'.1 ∧ same_contents e.2 e'.2)
                es es') as Hpt'.
      { clear -Hpt. induction Hpt as [|e e' es es' He _ IHpt];
          constructor; [split; [by left | done]|].
        eapply Forall2_impl; [exact IHpt|].
        intros a b (? & ? & ?). split; [by right | done]. }
      eapply flat_map_Forall2_Permutation; [|exact Hpt'].
      intros [d c] [d' c'] (Hin & Hd & Hc). simpl in Hd, Hc. subst d'.
      pose proof (same_contents_is_Dir _ _ Hc) as Hdir.
      destruct c as [b|sub], c' as [b'|sub']; try done.
      case_bool_decide; [|done].
      apply (IH _ Hin); [apply (Hsub _ Hin) | done]. }
    assert (NoDup (map fst es')) as Hnd'' by (by rewrite <-Hnames).
    cbn [walk]. rewrite !prune_dirs_filter.
    assert (subdirs es' ≡ₚ subdirs es'') as Hps
      by (by apply Permutation_flat_map).
    assert (nondirs es' ≡ₚ nondirs es'') as Hpn
      by (by apply Permutation_flat_map).
    apply Permutation_app.
    + rewrite (report_ext rel es' es'').
      * apply report_Permutation. by rewrite Hps, Hpn.
      * intros name. by rewrite (assoc_Permutation name es' es'').
    + apply flat_map_ext_Permutation; [|done].
      intros [d [b|sub]] _; [done|].
      simpl. rewrite (bool_decide_ext (d ∈ filter _ (subdirs es'))
                        (d ∈ filter (kept ignore rel) (subdirs es''))); [done|].
      by rewrite Hps.
Qed.
End WalkOrder.

Lemma listed_not_ignored (ignore : pystr → bool) (root : node) (r : pystr) :
  listed ignore root [] r → ignore r = false.
Proof.
  intros (comps & n & _ & _ & _ & Hig & Hn). simpl in *.
  destruct n as [b|sub]; [by subst | by destruct Hn as [? ->]].
Qed.

(** C4. For an existing directory and the matcher compiled from the
    ignore sources, [list_files] returns the JSON array of a sorted list
    that holds exactly the entries to be listed: no entry below an ignored
    directory, no ignored entry, directories with a slash at the end.  In
    particular no path of the array is matched, and a directory with the
    same contents, in whatever order its entries are enumerated, gives the
    same array. *)
Theorem list_files_listing (E : Env) (inp : gmap pystr pystr) (fs : FS)
    (es : list (pystr * node)) (ignore : pystr → bool) :
  stat fs (resolve E (default (py ".") (inp !! py "path"))) = Some (Dir es) →
  wf_node (Dir es) →
  _get_gitignore E (resolve E (default (py ".") (inp !! py "path"))) fs
  = (Ok ignore, fs) →
  ∃ l,
    list_files E inp fs = (Ok (json_dumps l), fs)
    ∧ Sorted str_le l
    ∧ (∀ r, r ∈ l ↔ listed ignore (Dir es) [] r)
    ∧ (∀ r, r ∈ l → ignore r = false)
    ∧ (∀ inp2 fs2 es2,
         stat fs2 (resolve E (default (py ".") (inp2 !! py "path")))
         = Some (Dir es2) →
         same_contents (Dir es) (Dir es2) →
         _get_gitignore E (resolve E (default (py ".") (inp2 !! py "path")))
                        fs2 = (Ok ignore, fs2) →
         list_files E inp2 fs2 = (Ok (json_dumps l), fs2)).
Proof.
  intros Hs Hwf Hg.
  assert (∀ inp2 fs2 es2,
            stat fs2 (resolve E (default (py ".") (inp2 !! py "path")))
            = Some (Dir es2) →
            _get_gitignore E (resolve E (default (py ".") (inp2 !! py "path")))
                           fs2 = (Ok ignore, fs2) →
            list_files E inp2 fs2
            = (Ok (json_dumps (sorted (walk ignore [] (Dir es2)))), fs2))
    as Hrun.
  { intros inp2 fs2 es2 Hs2 Hg2.
    pose proof (list_files_cases E inp2 fs2) as Hc. cbv zeta in Hc.
    rewrite Hs2 in Hc.
    destruct Hc as [(ig & Hig & ->)|(d & Hd & _)]; [|congruence].
    rewrite Hg2 in Hig. by injection Hig as <-. }
  exists (sorted (walk ignore [] (Dir es))).
  assert (∀ r, r ∈ sorted (walk ignore [] (Dir es))
               ↔ listed ignore (Dir es) [] r) as Hlisted.
  { intros r. rewrite sorted_Permutation. by apply walk_listed. }
  split_and!.
  - by apply Hrun.
  - apply sorted_Sorted.
  - exact Hlisted.
  - intros r Hr. eapply listed_not_ignored. by apply Hlisted.
  - intros inp2 fs2 es2 Hs2 Hsame Hg2. rewrite (Hrun inp2 fs2 es2 Hs2 Hg2).
    do 3 f_equal. symmetry. apply sorted_unique.
    by apply walk_same_contents.
Qed.

Lemma list_files_listing_witness :
  ∃ l,
    list_files sample_env ∅ sample_disk = (Ok (json_dumps l), sample_disk)
    ∧ Sorted str_le l
    ∧ (∀ r, r ∈ l → bool_decide (r ∈ [py "build/"]) = false).
Proof.
  destruct (list_files_listing sample_env ∅ sample_disk
              [(py "a.txt", File (raw "hello"));
               (py ".gitignore", File (raw "build/"));
               (py "build", Dir [(py "out.o", File [])]);
               (py "src", Dir [(py "m.py", File (raw "x = 1"))])]
              (gitwildmatch sample_env [py "build/"]))
    as (l & Hrun & Hsorted & _ & Hig & _).
  - by vm_compute.
  - simpl. split_and!; try done; apply (bool_decide_unpack _); by vm_compute.
  - by vm_compute.
  - exists l. split_and!; [exact Hrun | exact Hsorted | exact Hig].
Defined.

Example list_files_sample :
  list_files sample_env ∅ sample_disk
  = (Ok (json_dumps [py ".gitignore"; py "a.txt"; py "src/"; py "src/m.py"]),
     sample_disk).
Proof. by vm_compute. Qed.

(** The same directory enumerated in another order. *)
Example list_files_other_order :
  list_files sample_env ∅
    [(py "etc", Dir [(py "passwd", File (raw "root"))]);
     (py "home",
      Dir [(py "proj",
            Dir [(py "src", Dir [(py "m.py", File (raw "x = 1"))]);
                 (py "build", Dir [(py "out.o", File [])]);
                 (py ".gitignore", File (raw "build/"));
                 (py "a.txt", File (raw "hello"))])])]
  = (Ok (json_dumps [py ".gitignore"; py "a.txt"; py "src/"; py "src/m.py"]),
     [(py "etc", Dir [(py "passwd", File (raw "root"))]);
      (py "home",
       Dir [(py "proj",
             Dir [(py "src", Dir [(py "m.py", File (raw "x = 1"))]);
                  (py "build", Dir [(py "out.o", File [])]);
                  (py ".gitignore", File (raw "build/"));
                  (py "a.txt", File (raw "hello"))])])]).
Proof. by vm_compute. Qed.

(** ** The orchestrator *)

Lemma kind_of_tool_result (rb : gmap pystr value) (id : pystr) :
  rb !! py "type" = Some (VStr (py "tool_result")) →
  rb !! py "tool_use_id" = Some (VStr id) →
  kind_of {| mp_role := py "user"; mp_content := Dicts [rb] |}
  = ToolResultFor id.
Proof.
  intros Hty Hid. unfold kind_of. cbn [mp_content mp_role].
  rewrite Hty, Hid. by rewrite !bool_decide_eq_true_2.
Qed.

Section Orchestrator.
Context (E : Env).

(** The loop over the blocks of a response: every [tool_use] block is
    dispatched, its result is appended to [CONV], and the model is called
    with the conversation that ends with this result. *)
Lemma for_blocks_spec (bs : list block) :
  ∀ pending w, ∃ r w',
    for_blocks E bs pending w = (r, w')
    ∧ match r with
      | Ok pending' =>
          ∃ used new_conv new_reqs,
            pending' = pending ++ used
            ∧ replies w = used ++ replies w'
            ∧ length used = length (tool_use_ids bs)
            ∧ CONV w' = CONV w ++ new_conv
            ∧ map kind_of new_conv = map ToolResultFor (tool_use_ids bs)
            ∧ requests w' = requests w ++ new_reqs
            ∧ map (λ req, kind_of <$> last req) new_reqs
              = map (λ id, Some (ToolResultFor id)) (tool_use_ids bs)
      | Raise e =>
          e = TransportError
          ∧ (length (replies w) < length (tool_use_ids bs))%nat
      end.
Proof.
  induction bs as [|b bs IH]; intros pending w.
  - exists (Ok pending), w. split; [done|]. exists [], [], [].
    by rewrite !app_nil_r.
  - assert (∀ pending w, (∃ id tool input, b = ToolUse id tool input) ∨
              (for_blocks E (b :: bs) pending w = for_blocks E bs pending w
               ∧ tool_use_ids (b :: bs) = tool_use_ids bs)) as Hb.
    { intros ? ?. destruct b; [by right | left; by eexists _, _, _ | by right]. }
    destruct (Hb pending w) as [(id & tool & input & ->)|[-> ->]];
      [|apply IH].
    cbn [for_blocks].
    destruct (run_tool_in_returns E (TOOL_MAP E) id tool input (disk w))
      as (rb & fs' & Hrun & Hty & Hid).
    fold (run_tool E id tool input) in Hrun. rewrite Hrun.
    set (param := {| mp_role := py "user"; mp_content := Dicts [rb] |}).
    set (w1 := CONV_append param (with_disk fs' w)).
    unfold create. change (replies w1) with (replies w).
    destruct (replies w) as [|m rest] eqn:Hreplies.
    + eexists _, _. split; [done|]. split; [done|]. simpl. lia.
    + set (w2 := {| CONV := CONV w1; disk := disk w1; replies := rest;
                    requests := requests w1 ++ [CONV w1] |}).
      destruct (IH (pending ++ [m]) w2) as (r & w' & Hfor & Hr).
      exists r, w'. split; [done|].
      destruct r as [pending'|e];
        [|destruct Hr as [-> Hr]; split; [done|]; simpl in *; lia].
      destruct Hr as (used & new_conv & new_reqs & -> & Hrep & Hlen & Hconv
                      & Hkinds & Hreqs & Hlast).
      exists (m :: used), (param :: new_conv), (CONV w1 :: new_reqs).
      split_and!.
      * by rewrite <-app_assoc.
      * simpl in Hrep. by rewrite Hrep.
      * simpl. by rewrite Hlen.
      * rewrite Hconv. simpl. by rewrite <-app_assoc.
      * simpl. f_equal; [|done]. by apply kind_of_tool_result.
      * rewrite Hreqs. simpl. by rewrite <-app_assoc.
      * simpl. f_equal; [|done]. simpl. rewrite last_snoc. simpl.
        f_equal. by apply kind_of_tool_result.
Qed.

Lemma total_tool_uses_cons (m : Message) (ms : list Message) :
  total_tool_uses (m :: ms) = (tool_uses m + total_tool_uses ms)%nat.
Proof. done. Qed.


(** The loop of [handle]: with enough fuel it ends; when it ends normally
    it has processed the queue and then the responses [used] it obtained,
    in this order. *)
Lemma while_pending_spec (role0 : pystr) :
  ∀ fuel pending w,
    (length pending + length (replies w) < fuel)%nat →
    ∃ r w',
      while_pending E fuel role0 pending w = Some (r, w')
      ∧ match r with
        | Ok _ =>
            ∃ used new_reqs,
              replies w = used ++ replies w'
              ∧ total_tool_uses (pending ++ used) = length used
              ∧ (∀ j, (j < length (pending ++ used))%nat →
                      (j < length pending
                           + total_tool_uses (take j (pending ++ used)))%nat)
              ∧ map kind_of (CONV w')
                = map kind_of (CONV w)
                  ++ flat_map (entries_for role0) (pending ++ used)
              ∧ requests w' = requests w ++ new_reqs
              ∧ map (λ req, kind_of <$> last req) new_reqs
                = map (λ id, Some (ToolResultFor id))
                      (flat_map (λ m, tool_use_ids (content m))
                                (pending ++ used))
        | Raise e =>
            e = TransportError
            ∧ (∀ j, (j ≤ length (pending ++ replies w))%nat →
                    (j < length pending
                         + total_tool_uses (take j (pending ++ replies w)))%nat)
        end.
Proof.
  induction fuel as [|fuel IH]; intros pending w Hfuel; [lia|].
  destruct pending as [|current rest].
  - exists (Ok tt), w. split; [done|]. exists [], [].
    rewrite !app_nil_r. split_and!; try done. simpl. lia.
  - cbn [while_pending]. unfold loop_body.
    set (param := {| mp_role := role0;
                     mp_content := Blocks (content current) |}).
    destruct (for_blocks_spec (content current) rest (CONV_append param w))
      as (r1 & w2 & -> & Hr1).
    destruct r1 as [pending'|e].
    2:{ exists (Raise e), w2. split; [done|]. destruct Hr1 as [-> Hshort].
        split; [done|]. simpl in Hshort. intros [|j] Hj; [simpl; lia|].
        simpl app. rewrite firstn_cons, total_tool_uses_cons.
        unfold tool_uses at 1. simpl in Hj. rewrite length_app in Hj.
        simpl. lia. }
    destruct Hr1 as (used1 & conv1 & reqs1 & -> & Hrep1 & Hlen1 & Hconv1
                     & Hkinds1 & Hreqs1 & Hlast1).
    simpl in Hrep1, Hconv1, Hreqs1.
    destruct (IH (rest ++ used1) w2) as (r & w' & -> & Hr).
    { rewrite length_app. rewrite Hrep1, length_app in Hfuel.
      simpl in Hfuel. lia. }
    exists r, w'. split; [done|]. destruct r as [[]|e].
    2:{ destruct Hr as [-> Hnever]. split; [done|].
        rewrite Hrep1. intros [|j] Hj; [simpl; lia|].
        simpl app. rewrite firstn_cons, total_tool_uses_cons.
        unfold tool_uses at 1. simpl in Hj.
        rewrite <-app_assoc in Hnever.
        specialize (Hnever j ltac:(rewrite ?length_app in *; simpl; lia)).
        rewrite length_app in Hnever. simpl. lia. }
    destruct Hr as (used2 & reqs2 & Hrep2 & Htotal & Hmin & Hconv2 & Hreqs2
                    & Hlast2).
    exists (used1 ++ used2), (reqs1 ++ reqs2).
    replace ((current :: rest) ++ used1 ++ used2)
      with (current :: (rest ++ used1) ++ used2)
      by (simpl; by rewrite <-app_assoc).
    split_and!.
    + by rewrite Hrep1, Hrep2, <-app_assoc.
    + rewrite total_tool_uses_cons, Htotal, length_app.
      unfold tool_uses. lia.
    + intros [|j] Hj; [simpl; lia|]. simpl in Hj.
      specialize (Hmin j ltac:(lia)). rewrite length_app in Hmin.
      rewrite firstn_cons, total_tool_uses_cons. unfold tool_uses at 1.
      simpl. lia.
    + rewrite Hconv2, Hconv1, !map_app, Hkinds1. simpl.
      by rewrite <-!app_assoc.
    + by rewrite Hreqs2, Hreqs1, <-app_assoc.
    + by rewrite map_app, Hlast1, Hlast2, <-map_app.
Qed.
End Orchestrator.

Lemma count_tool_results_app (ks ks' : list entry_kind) :
  count_tool_results (ks ++ ks')
  = (count_tool_results ks + count_tool_results ks')%nat.
Proof. unfold count_tool_results. by rewrite List.filter_app, length_app. Qed.

Lemma count_tool_results_entries (role0 : pystr) (ms : list Message) :
  count_tool_results (flat_map (entries_for role0) ms) = total_tool_uses ms.
Proof.
  induction ms as [|m ms IH]; [done|].
  cbn [flat_map]. rewrite count_tool_results_app, IH, total_tool_uses_cons.
  f_equal. unfold entries_for, tool_uses, count_tool_results. simpl.
  induction (tool_use_ids (content m)) as [|id ids IHids]; [done|].
  simpl. by rewrite IHids.
Qed.


Lemma length_flat_map_tool_use_ids (ms : list Message) :
  length (flat_map (λ m, tool_use_ids (content m)) ms) = total_tool_uses ms.
Proof.
  induction ms as [|m ms IH]; [done|].
  cbn [flat_map]. by rewrite length_app, IH, total_tool_uses_cons.
Qed.




Lemma kind_of_text_param (text : pystr) :
  kind_of {| mp_role := py "user"; mp_content := Dicts [text_param text] |}
  = OtherEntry.
Proof.
  unfold kind_of, text_param. cbn [mp_content mp_role].
  by simplify_map_eq.
Qed.

(** The scenario of the specification: the model answers the user with a
    [tool_use], answers its result with another [tool_use], and answers
    the result of that one without any.  The round makes three model
    calls and two dispatches, and then control is back at the prompt. *)
Lemma two_tool_uses_three_model_calls (E : Env) (fuel : nat)
    (user_input : pystr) (w : World) (m0 m1 m2 : Message)
    (rest : list Message) :
  replies w = m0 :: m1 :: m2 :: rest →
  tool_uses m0 = 1%nat → tool_uses m1 = 1%nat → tool_uses m2 = 0%nat →
  (length (replies w) < fuel)%nat →
  ∃ w',
    loop_round E fuel user_input w = Some (Ok tt, w')
    ∧ replies w' = rest
    ∧ length (requests w') = (length (requests w) + 3)%nat
    ∧ dispatches (CONV w') = (dispatches (CONV w) + 2)%nat.
Proof.
  intros Hrep H0 H1 H2 Hfuel. unfold loop_round, create.
  cbn [replies CONV_append]. rewrite Hrep.
  set (w2 := {| CONV := _; disk := _; replies := m1 :: m2 :: rest;
                requests := _ |}).
  unfold handle.
  destruct (while_pending_spec E (role m0) fuel [m0] w2)
    as (r & w' & -> & Hr).
  { rewrite Hrep in Hfuel. simpl in *. lia. }
  destruct r as [[]|e].
  2:{ destruct Hr as [_ Hnever].
      specialize (Hnever 3%nat ltac:(simpl; lia)).
      simpl in Hnever. unfold total_tool_uses in Hnever. simpl in Hnever.
      lia. }
  destruct Hr as (used & new_reqs & Hused & Hlen & Hmin & Hconv & Hreqs
                  & Hlast).
  assert (length new_reqs = total_tool_uses (m0 :: used)) as Hcalls.
  { apply (f_equal length) in Hlast. rewrite !length_map in Hlast.
    by rewrite Hlast, length_flat_map_tool_use_ids. }
  assert (dispatches (CONV w')
          = (dispatches (CONV w2) + total_tool_uses (m0 :: used))%nat)
    as Hdisp.
  { unfold dispatches. rewrite Hconv, count_tool_results_app.
    by rewrite <-(count_tool_results_entries (role m0) (m0 :: used)). }
  symmetry in Hlen. simpl app in Hlen, Hmin.
  cbn [replies] in Hused. unfold total_tool_uses in *.
  destruct used as [|u1 [|u2 [|u3 used]]]; simpl in Hused, Hlen.
  - lia.
  - injection Hused as <- _. lia.
  - injection Hused as <- <- Hrest. exists w'. split_and!; try done.
    + rewrite Hreqs. subst w2. cbn [requests]. rewrite !length_app.
      simpl. simpl in Hcalls. lia.
    + rewrite Hdisp. unfold dispatches. subst w2. cbn [CONV CONV_append].
      rewrite map_app, count_tool_results_app. simpl map.
      rewrite kind_of_text_param. simpl.
      change (count_tool_results [OtherEntry]) with 0%nat. lia.
  - injection Hused as <- <- _.
    specialize (Hmin 3%nat ltac:(simpl; lia)). simpl in Hmin. lia.
Qed.

Example two_tool_uses_on_the_sample_disk :
  ∃ w',
    loop_round sample_env 4 (py "list the files, then read a.txt")
      {| CONV := []; disk := sample_disk;
         replies :=
           [{| role := py "assistant";
               content := [ToolUse (py "toolu_01") (py "list_files") ∅] |};
            {| role := py "assistant";
               content := [Text (py "reading");
                           ToolUse (py "toolu_02") (py "read_file")
                                   (<[py "path" := py "a.txt"]> ∅)] |};
            {| role := py "assistant";
               content := [Text (py "it says hello")] |}];
         requests := [] |}
    = Some (Ok tt, w')
    ∧ replies w' = []
    ∧ length (requests w') = 3%nat
    ∧ dispatches (CONV w') = 2%nat.
Proof.
  match goal with
  | |- ∃ w', loop_round _ _ ?input ?w = _ ∧ _ =>
      destruct (two_tool_uses_three_model_calls sample_env 4 input w
                  _ _ _ [] eq_refl eq_refl eq_refl eq_refl)
        as (w' & Hrun & Hrest & Hcalls & Hdisp); [simpl; lia|]
  end.
  exists w'. split_and!; done.
Qed.

(** * Further properties of the tools *)

(** ** What a tool may change on the disk *)




#[global] Instance same_outside_refl p : Reflexive (same_outside p).
Proof. by intros fs q _. Qed.

#[global] Instance same_outside_trans p : Transitive (same_outside p).
Proof.
  intros fs1 fs2 fs3 H12 H23 q Hq. by rewrite (H23 q Hq), (H12 q Hq).
Qed.





Section Keeps.
Context (P : FS → FS → Prop) `{!Reflexive P, !Transitive P}.

Lemma keeps_ret {A} (a : A) : keeps P (ret a).
Proof. intros fs. simpl. done. Qed.

Lemma keeps_raise {A} (e : exn) : keeps P (raise (A := A) e).
Proof. intros fs. simpl. done. Qed.

Lemma keeps_lift {A} (r : result A) : keeps P (lift r).
Proof. intros fs. simpl. done. Qed.

Lemma keeps_query {A} (f : FS → A) : keeps P (query f).
Proof. intros fs. simpl. done. Qed.

Lemma keeps_bind {A B} (m : io A) (k : A → io B) :
  keeps P m → (∀ a, keeps P (k a)) → keeps P (bind m k).
Proof.
  intros Hm Hk fs. unfold bind. specialize (Hm fs).
  destruct (m fs) as [[a|e] fs1]; simpl in *; [|done].
  etrans; [exact Hm | apply Hk].
Qed.


Lemma keeps_read_text (p : fspath) (enc : encoding) :
  keeps P (read_text p enc).
Proof.
  intros fs. unfold read_text.
  destruct (stat fs p) as [[data|es]|]; simpl; try done.
  destruct enc; [destruct (utf8_decode data)|]; done.
Qed.

Lemma keeps_except {A} (m handler : io A) :
  keeps P m → keeps P handler → keeps P (except_UnicodeDecodeError m handler).
Proof.
  intros Hm Hh fs. unfold except_UnicodeDecodeError. specialize (Hm fs).
  destruct (m fs) as [[a|e] fs1]; simpl in *; [done|].
  destruct e; try done. etrans; [exact Hm | apply Hh].
Qed.
End Keeps.

Ltac keeps_step :=
  first
    [ solve [apply keeps_ret; apply _]
    | solve [apply keeps_raise; apply _]
    | solve [apply keeps_lift; apply _]
    | solve [apply keeps_query; apply _]
    | solve [apply keeps_read_text; apply _]
    | apply keeps_except; try apply _
    | apply keeps_bind; try apply _; [|intros ?]
    | match goal with
      | |- keeps _ (if ?b then _ else _) => destruct b
      | |- keeps _ (match ?o with Some _ => _ | None => _ end) => destruct o
      end ].

Lemma read_file_keeps (E : Env) (inp : gmap pystr pystr) :
  keeps eq (read_file E inp).
Proof. unfold read_file. repeat keeps_step. Qed.

Lemma ignore_lines_keeps (path : fspath) : keeps eq (ignore_lines path).
Proof. unfold ignore_lines. repeat keeps_step. Qed.

Lemma _get_gitignore_keeps (E : Env) (root : fspath) :
  keeps eq (_get_gitignore E root).
Proof.
  unfold _get_gitignore. repeat (keeps_step || apply ignore_lines_keeps).
Qed.

Lemma list_files_keeps (E : Env) (inp : gmap pystr pystr) :
  keeps eq (list_files E inp).
Proof.
  unfold list_files. repeat (keeps_step || apply _get_gitignore_keeps).
Qed.








Lemma run_tool_read_only (E : Env) (id tool : pystr)
    (payload : gmap pystr pystr) (fs : FS) :
  tool ≠ py "edit_file" → (run_tool E id tool payload fs).2 = fs.
Proof.
  intros Hedit. unfold run_tool, run_tool_in. rewrite TOOL_MAP_lookup.
  rewrite decide_False by done.
  destruct (decide (tool = py "read_file")) as [Hread|Hread].
  - cbn [fn READ_FILE]. pose proof (read_file_keeps E payload fs) as Hk.
    by destruct (read_file E payload fs) as [[out|err] fs'].
  - destruct (decide (tool = py "list_files")) as [Hlist|Hlist]; [|done].
    cbn [fn LIST_FILES]. pose proof (list_files_keeps E payload fs) as Hk.
    by destruct (list_files E payload fs) as [[out|err] fs'].
Qed.




(** ** [read_file] *)

Lemma read_file_cases (E : Env) (inp : gmap pystr pystr) (p : pystr)
    (target : fspath) (fs : FS) :
  inp !! py "path" = Some p → _resolve_relative E p = Ok target →
  read_file E inp fs =
    match stat fs target with
    | None =>
        (Raise (FileNotFoundError (py "No such file: " ++ str_path target)),
         fs)
    | Some (Dir _) =>
        (Raise (IsADirectoryError
                  (py "Expected a file, found a directory: " ++ p)), fs)
    | Some (File data) => (Ok (file_text data), fs)
    end.
Proof.
  intros Hp Hres.
  destruct (stat fs target) as [[data|es]|] eqn:Hs.
  - by apply (read_file_of_file E inp p target).
  - unfold read_file, bind, lift, query, getitem, raise, exists_, is_dir.
    rewrite Hp, Hres. by repeat (progress cbn [negb andb] || rewrite Hs).
  - unfold read_file, bind, lift, query, getitem, raise, exists_, is_dir.
    rewrite Hp, Hres. by repeat (progress cbn [negb andb] || rewrite Hs).
Qed.



(** ** Paths without [..] *)

Lemma foldl_resolve_step_plain (parts : list pystr) (acc : fspath) :
  py ".." ∉ parts → foldl resolve_step acc parts = acc ++ parts.
Proof.
  revert acc. induction parts as [|x parts IH]; intros acc Hp; simpl.
  - by rewrite app_nil_r.
  - apply not_elem_of_cons in Hp as [Hx Hp]. rewrite IH by done.
    unfold resolve_step. rewrite bool_decide_eq_false_2 by done.
    by rewrite <-app_assoc.
Qed.

Lemma resolve_relative_plain (E : Env) (p : pystr) :
  p ≠ [] → is_absolute p = false → py ".." ∉ Path_parts p →
  _resolve_relative E p = Ok (project_root E ++ Path_parts p).
Proof.
  intros Hne Habs Hdd.
  assert (candidate E p = project_root E ++ Path_parts p) as Hcand.
  { unfold candidate, normalise.
    rewrite foldl_resolve_step_plain; [done|].
    rewrite not_elem_of_app. split; [|done]. apply normalise_no_dotdot. }
  destruct (resolve_relative_cases E p)
    as [[? _]|[(_ & ? & _)|[(_ & _ & Hne' & Hnd & _)|(_ & _ & _ & Hc)]]];
    [done | congruence | | by rewrite Hc, Hcand].
  exfalso. rewrite Hcand in Hne', Hnd.
  destruct (Path_parts p) as [|x parts] eqn:Hparts.
  - by rewrite app_nil_r in Hne'.
  - apply Hnd. by exists (x :: parts).
Qed.



(** ** Edits in sequence *)

Lemma replace_scan_Forall (P : N → Prop) (old new : pystr) (k : nat)
    (s : pystr) :
  Forall P new → Forall P s → Forall P (replace_scan old new k s).
Proof.
  intros Hnew. revert k. induction s as [|c s IH]; intros k Hs; [constructor|].
  apply Forall_cons in Hs as [Hc Hs]. cbn [replace_scan].
  destruct k as [|k]; [|by apply IH].
  destruct (startswith (c :: s) old).
  - apply Forall_app. split; [done | by apply IH].
  - constructor; [done | by apply IH].
Qed.

Lemma str_replace_Forall (P : N → Prop) (s old new : pystr) :
  Forall P new → Forall P s → Forall P (str_replace s old new).
Proof.
  intros Hnew Hs. unfold str_replace. destruct old.
  - apply Forall_app. split; [done|].
    apply Forall_flat_map. eapply Forall_impl; [exact Hs|].
    intros c Hc. simpl. by constructor.
  - by apply replace_scan_Forall.
Qed.

Lemma not_elem_of_Forall (c : N) (s : pystr) : c ∉ s ↔ Forall (λ x, x ≠ c) s.
Proof.
  rewrite Forall_forall. split.
  - intros Hs x Hx ->. done.
  - intros Hs Hc. by apply (Hs c).
Qed.

Lemma replace_scan_same (old : pystr) (s : pystr) :
  old ≠ [] → replace_scan old old 0 s = s.
Proof.
  intros Hold. remember (length s) as n eqn:Hn. revert s Hn.
  induction (lt_wf n) as [n _ IH]. intros s Hn.
  destruct s as [|c s]; [done|].
  destruct (startswith (c :: s) old) eqn:Hsw.
  - apply startswith_spec in Hsw as (rest & Heq). rewrite Heq.
    destruct old as [|c0 old']; [done|].
    rewrite (replace_scan_hit _ _ c0 old' rest eq_refl). f_equal.
    apply (IH (length rest)); [|done].
    subst n. rewrite Heq, length_app. simpl. lia.
  - rewrite replace_scan_miss by done. f_equal.
    apply (IH (length s)); [|done]. subst n. simpl. lia.
Qed.

Lemma str_replace_same (s old : pystr) : str_replace s old old = s.
Proof.
  unfold str_replace. destruct old as [|c old'].
  - simpl. induction s as [|x s IH]; [done|]. simpl. by rewrite IH.
  - by apply replace_scan_same.
Qed.

Section EditSequences.
Context (E : Env) (inp : gmap pystr pystr) (p o n : pystr) (target : fspath).
Hypothesis Hpath : inp !! py "path" = Some p.
Hypothesis Hold : inp !! py "old_str" = Some o.
Hypothesis Hnew : inp !! py "new_str" = Some n.
Hypothesis Hres : _resolve_relative E p = Ok target.

(** An edit of an existing file whose new text can be encoded, and what
    [read_file] returns after it. *)
Lemma edit_file_then_read (fs : FS) (data : bytes) :
  stat fs target = Some (File data) →
  encodable (str_replace (file_text data) o n) →
  ∃ fs' data',
    edit_file E inp fs = (Ok (py "Successfully edited file: " ++ p), fs')
    ∧ stat fs' target = Some (File data')
    ∧ file_text data' = universal_newlines (str_replace (file_text data) o n)
    ∧ read_file E inp fs'
      = (Ok (universal_newlines (str_replace (file_text data) o n)), fs').
Proof.
  intros Hs [data' Hdata].
  destruct (edit_file_existing E inp p o n target Hpath Hold Hnew Hres
              fs data Hs) as (fs' & Hs' & Hedit).
  cbv zeta in Hs', Hedit. rewrite Hdata in Hs', Hedit. simpl in Hs'.
  exists fs', data'. split_and!; try done.
  - by apply file_text_encoded.
  - rewrite (read_file_of_file E inp p target fs' data' Hpath Hres Hs').
    by rewrite (file_text_encoded _ _ Hdata).
Qed.
End EditSequences.

(** X5. After an edit of an existing file with well-formed [new_str],
    [read_file] returns the text read before with every occurrence of
    [old_str] replaced and the carriage returns of [new_str] turned into
    line feeds: the replaced text itself when [new_str] has none. *)
Theorem edit_then_read (E : Env) (inp : gmap pystr pystr) (p o n : pystr)
    (target : fspath) (fs : FS) (data : bytes) :
  inp !! py "path" = Some p →
  inp !! py "old_str" = Some o →
  inp !! py "new_str" = Some n →
  _resolve_relative E p = Ok target →
  stat fs target = Some (File data) →
  encodable n →
  ∃ fs',
    edit_file E inp fs = (Ok (py "Successfully edited file: " ++ p), fs')
    ∧ read_file E inp fs'
      = (Ok (universal_newlines (str_replace (file_text data) o n)), fs')
    ∧ (13 ∉ n →
       read_file E inp fs' = (Ok (str_replace (file_text data) o n), fs')).
Proof.
  intros Hp Ho Hn Hres Hs Henc.
  destruct (edit_file_then_read E inp p o n target Hp Ho Hn Hres fs data Hs)
    as (fs' & data' & Hedit & _ & _ & Hread).
  { apply encodable_Forall, str_replace_scalar;
      [by apply encodable_Forall | apply file_text_scalar]. }
  exists fs'. split_and!; try done.
  intros Hcr. rewrite Hread, universal_newlines_id; [done|].
  apply not_elem_of_Forall, str_replace_Forall; apply not_elem_of_Forall;
    [done | apply file_text_no_cr].
Qed.

Lemma edit_then_read_witness :
  ∃ fs',
    edit_file sample_env
      (<[py "new_str" := py "L"]> (<[py "old_str" := py "l"]>
       (<[py "path" := py "a.txt"]> ∅))) sample_disk
    = (Ok (py "Successfully edited file: " ++ py "a.txt"), fs')
    ∧ read_file sample_env
        (<[py "new_str" := py "L"]> (<[py "old_str" := py "l"]>
         (<[py "path" := py "a.txt"]> ∅))) fs'
      = (Ok (py "heLLo"), fs').
Proof.
  destruct (edit_then_read sample_env
              (<[py "new_str" := py "L"]> (<[py "old_str" := py "l"]>
               (<[py "path" := py "a.txt"]> ∅)))
              (py "a.txt") (py "l") (py "L")
              [py "home"; py "proj"; py "a.txt"] sample_disk (raw "hello"))
    as (fs' & Hedit & _ & Hread);
    [by vm_compute | by vm_compute | by vm_compute | by vm_compute
    | by vm_compute | exists (raw "L"); by vm_compute |].
  exists fs'. split; [exact Hedit|]. apply Hread.
  vm_compute. intros Hin.
  repeat (apply elem_of_cons in Hin as [Hin|Hin]; [discriminate Hin|]).
  by apply elem_of_nil in Hin.
Defined.

(** X6. Idempotence: when [old_str] does not occur in the text an edit
    has produced, the same edit once more reports success again and the
    file reads as after the first. *)
Theorem edit_file_twice (E : Env) (inp : gmap pystr pystr) (p o n : pystr)
    (target : fspath) (fs : FS) (data : bytes) :
  inp !! py "path" = Some p →
  inp !! py "old_str" = Some o →
  inp !! py "new_str" = Some n →
  _resolve_relative E p = Ok target →
  stat fs target = Some (File data) →
  encodable n →
  ¬ occurs o (universal_newlines (str_replace (file_text data) o n)) →
  ∃ fs1 fs2 text,
    edit_file E inp fs = (Ok (py "Successfully edited file: " ++ p), fs1)
    ∧ edit_file E inp fs1 = (Ok (py "Successfully edited file: " ++ p), fs2)
    ∧ read_file E inp fs1 = (Ok text, fs1)
    ∧ read_file E inp fs2 = (Ok text, fs2).
Proof.
  intros Hp Ho Hn Hres Hs Henc Hgone.
  destruct (edit_file_then_read E inp p o n target Hp Ho Hn Hres fs data Hs)
    as (fs1 & data1 & Hedit1 & Hs1 & Htext1 & Hread1).
  { apply encodable_Forall, str_replace_scalar;
      [by apply encodable_Forall | apply file_text_scalar]. }
  rewrite <-Htext1 in Hgone, Hread1.
  destruct (edit_file_then_read E inp p o n target Hp Ho Hn Hres fs1 data1 Hs1)
    as (fs2 & data2 & Hedit2 & Hs2 & Htext2 & Hread2).
  { rewrite (str_replace_absent _ _ _ Hgone).
    apply encodable_Forall, file_text_scalar. }
  rewrite (str_replace_absent _ _ _ Hgone) in Hread2.
  rewrite universal_newlines_id in Hread2 by apply file_text_no_cr.
  by exists fs1, fs2, (file_text data1).
Qed.

Lemma edit_file_twice_witness :
  ∃ fs1 fs2 text,
    edit_file sample_env
      (<[py "new_str" := py "L"]> (<[py "old_str" := py "l"]>
       (<[py "path" := py "a.txt"]> ∅))) sample_disk
    = (Ok (py "Successfully edited file: " ++ py "a.txt"), fs1)
    ∧ edit_file sample_env
        (<[py "new_str" := py "L"]> (<[py "old_str" := py "l"]>
         (<[py "path" := py "a.txt"]> ∅))) fs1
      = (Ok (py "Successfully edited file: " ++ py "a.txt"), fs2)
    ∧ read_file sample_env
        (<[py "new_str" := py "L"]> (<[py "old_str" := py "l"]>
         (<[py "path" := py "a.txt"]> ∅))) fs1 = (Ok text, fs1)
    ∧ read_file sample_env
        (<[py "new_str" := py "L"]> (<[py "old_str" := py "l"]>
         (<[py "path" := py "a.txt"]> ∅))) fs2 = (Ok text, fs2).
Proof.
  apply (edit_file_twice sample_env _ (py "a.txt") (py "l") (py "L")
           [py "home"; py "proj"; py "a.txt"] sample_disk (raw "hello"));
    [by vm_compute | by vm_compute | by vm_compute | by vm_compute
    | by vm_compute | exists (raw "L"); by vm_compute |].
  intros (pre & rest & Heq). vm_compute in Heq.
  destruct pre as [|? [|? [|? [|? [|? [|? pre]]]]]]; simplify_eq.
Defined.

(** X7. An edit that replaces [old_str] by itself reports success and
    leaves the file reading as before, whatever [old_str] is. *)
Theorem edit_file_same_old_and_new (E : Env) (inp : gmap pystr pystr)
    (p o : pystr) (target : fspath) (fs : FS) (data : bytes) :
  inp !! py "path" = Some p →
  inp !! py "old_str" = Some o →
  inp !! py "new_str" = Some o →
  _resolve_relative E p = Ok target →
  stat fs target = Some (File data) →
  ∃ fs',
    edit_file E inp fs = (Ok (py "Successfully edited file: " ++ p), fs')
    ∧ read_file E inp fs = (Ok (file_text data), fs)
    ∧ read_file E inp fs' = (Ok (file_text data), fs').
Proof.
  intros Hp Ho Hn Hres Hs.
  destruct (edit_file_then_read E inp p o o target Hp Ho Hn Hres fs data Hs)
    as (fs' & data' & Hedit & _ & _ & Hread).
  { rewrite str_replace_same. apply encodable_Forall, file_text_scalar. }
  rewrite str_replace_same in Hread.
  rewrite universal_newlines_id in Hread by apply file_text_no_cr.
  exists fs'. split_and!; try done.
  by apply (read_file_of_file E inp p target).
Qed.

Lemma edit_file_same_old_and_new_witness :
  ∃ fs',
    edit_file sample_env
      (<[py "new_str" := py "l"]> (<[py "old_str" := py "l"]>
       (<[py "path" := py "a.txt"]> ∅))) sample_disk
    = (Ok (py "Successfully edited file: " ++ py "a.txt"), fs')
    ∧ read_file sample_env
        (<[py "new_str" := py "l"]> (<[py "old_str" := py "l"]>
         (<[py "path" := py "a.txt"]> ∅))) fs'
      = (Ok (file_text (raw "hello")), fs').
Proof.
  destruct (edit_file_same_old_and_new sample_env
              (<[py "new_str" := py "l"]> (<[py "old_str" := py "l"]>
               (<[py "path" := py "a.txt"]> ∅)))
              (py "a.txt") (py "l")
              [py "home"; py "proj"; py "a.txt"] sample_disk (raw "hello"))
    as (fs' & Hedit & _ & Hread);
    [by vm_compute | by vm_compute | by vm_compute | by vm_compute
    | by vm_compute |].
  exists fs'. split; [exact Hedit | exact Hread].
Defined.

(** ** The exceptions of the tools *)

Section Throws.
Context (Q : exn → Prop).

Lemma throws_ret {A} (a : A) : throws Q (ret a).
Proof. by intros fs e. Qed.

Lemma throws_raise {A} (e : exn) : Q e → throws Q (raise (A := A) e).
Proof. intros He fs e' [= <-]. done. Qed.

Lemma throws_query {A} (f : FS → A) : throws Q (query f).
Proof. by intros fs e. Qed.

Lemma throws_bind {A B} (m : io A) (k : A → io B) :
  throws Q m → (∀ a, throws Q (k a)) → throws Q (bind m k).
Proof.
  intros Hm Hk fs e. unfold bind.
  destruct (m fs) as [[a|e'] fs'] eqn:Hmfs.
  - apply Hk.
  - intros [= <-]. apply (Hm fs). by rewrite Hmfs.
Qed.

Lemma throws_except {A} (m handler : io A) :
  throws (λ e, Q e ∨ ∃ data, e = UnicodeDecodeError data) m →
  throws Q handler →
  throws Q (except_UnicodeDecodeError m handler).
Proof.
  intros Hm Hh fs e. unfold except_UnicodeDecodeError.
  specialize (Hm fs). destruct (m fs) as [[a|e'] fs']; [done|].
  destruct (Hm e' eq_refl) as [He'|[data ->]].
  - destruct e'; try (by intros [= <-]). apply Hh.
  - apply Hh.
Qed.
End Throws.

Lemma throws_weaken (Q Q' : exn → Prop) {A} (m : io A) :
  (∀ e, Q e → Q' e) → throws Q m → throws Q' m.
Proof. intros HQ Hm fs e He. by apply HQ, (Hm fs). Qed.

Lemma throws_read_text (p : fspath) (enc : encoding) :
  throws library_error (read_text p enc).
Proof.
  intros fs e. unfold read_text.
  destruct (stat fs p) as [[data|es]|]; try (by intros [= <-]).
  destruct enc; [|done]. destruct (utf8_decode data); [done|]. by intros [= <-].
Qed.

Lemma throws_read_latin_1 (Q : exn → Prop) (p : fspath) :
  (∀ er, Q (OSError er p)) → throws Q (read_text p latin_1).
Proof.
  intros HQ fs e. unfold read_text.
  destruct (stat fs p) as [[data|es]|]; try done; intros [= <-]; apply HQ.
Qed.

Lemma throws_store (p : fspath) (data : bytes) :
  throws library_error (store p data).
Proof.
  intros fs e. unfold store.
  destruct (store_node p data (Dir fs)) as [er|[?|?]]; try done;
    by intros [= <-].
Qed.

Lemma throws_write_text (p : fspath) (text : pystr) :
  throws library_error (write_text p text).
Proof.
  unfold write_text. apply throws_bind; [apply throws_store|]. intros _.
  destruct (utf8_encode text); [apply throws_store | by apply throws_raise].
Qed.

Lemma throws_mkdir_parents (p : fspath) :
  throws library_error (mkdir_parents p).
Proof.
  intros fs e. unfold mkdir_parents.
  destruct (mkdir_node p (Dir fs)) as [er|[?|?]]; try done; by intros [= <-].
Qed.

Lemma throws_read_with_fallback (p : fspath) :
  throws library_error
    (except_UnicodeDecodeError (read_text p utf_8) (read_text p latin_1)).
Proof.
  apply throws_except; [|apply throws_read_text].
  eapply throws_weaken; [|apply throws_read_text]. by left.
Qed.

Lemma library_error_not_KeyError (e : exn) : library_error e → not_KeyError e.
Proof. by destruct e. Qed.

Lemma list_files_throws (E : Env) (inp : gmap pystr pystr) :
  throws not_KeyError (list_files E inp).
Proof.
  intros fs e He. pose proof (list_files_cases E inp fs) as Hc.
  cbv zeta in Hc.
  destruct (stat fs (resolve E (default (py ".") (inp !! py "path"))))
    as [[data|es]|].
  - rewrite Hc in He. done.
  - destruct Hc as [(ig & _ & Hc)|(d & _ & Hc)]; rewrite Hc in He; [done|].
    simpl in He. by simplify_eq.
  - rewrite Hc in He. simpl in He. by simplify_eq.
Qed.

Ltac in_list := rewrite !elem_of_cons; auto 6.

Lemma read_file_throws (E : Env) (inp : gmap pystr pystr) (k : pystr) (fs : FS) :
  (read_file E inp fs).1 = Raise (KeyError k) →
  k = py "path" ∧ inp !! py "path" = None.
Proof.
  unfold read_file. destruct (inp !! py "path") as [p|] eqn:Hp.
  2:{ unfold bind, lift, getitem. rewrite Hp. simpl. by intros [= <-]. }
  intros He. exfalso. revert He.
  rewrite (bind_Ok _ _ fs fs p) by (unfold lift, getitem; by rewrite Hp).
  destruct (_resolve_relative E p) as [target|e] eqn:Hres.
  2:{ destruct (resolve_relative_cases E p)
        as [[_ H]|[(_ & _ & H)|[(_ & _ & _ & _ & H)|(_ & _ & _ & H)]]];
        rewrite H in Hres; simplify_eq; by unfold bind, lift. }
  rewrite (bind_Ok _ _ fs fs target) by done.
  intros He.
  assert (throws not_KeyError
    (let! found := query (λ fs, exists_ fs target) in
     if negb found then
       raise (FileNotFoundError (py "No such file: " ++ str_path target))
     else
       let! d := query (λ fs, is_dir fs target) in
       if d then
         raise (IsADirectoryError
                  (py "Expected a file, found a directory: " ++ p))
       else
         except_UnicodeDecodeError (read_text target utf_8)
                                   (read_text target latin_1))) as Ht.
  { apply throws_bind; [apply throws_query|]. intros found.
    destruct found; cbn [negb]; [|by apply throws_raise].
    apply throws_bind; [apply throws_query|]. intros d.
    destruct d; [by apply throws_raise|].
    eapply throws_weaken; [apply library_error_not_KeyError|].
    apply throws_read_with_fallback. }
  apply (Ht fs _ He).
Qed.

Lemma edit_file_throws (E : Env) (inp : gmap pystr pystr) (k : pystr) (fs : FS) :
  (edit_file E inp fs).1 = Raise (KeyError k) →
  k ∈ [py "path"; py "old_str"; py "new_str"] ∧ inp !! k = None
  ∧ (edit_file E inp fs).2 = fs.
Proof.
  unfold edit_file. destruct (inp !! py "path") as [p|] eqn:Hp.
  2:{ unfold bind, lift, getitem. rewrite Hp. simpl. intros [= <-].
      split_and!; [in_list | done..]. }
  rewrite (bind_Ok _ _ fs fs p) by (unfold lift, getitem; by rewrite Hp).
  destruct (_resolve_relative E p) as [target|e] eqn:Hres.
  2:{ destruct (resolve_relative_cases E p)
        as [[_ H]|[(_ & _ & H)|[(_ & _ & _ & _ & H)|(_ & _ & _ & H)]]];
        rewrite H in Hres; simplify_eq; by unfold bind, lift. }
  rewrite (bind_Ok _ _ fs fs target) by done.
  destruct (inp !! py "old_str") as [o|] eqn:Ho.
  2:{ unfold bind, lift, getitem. rewrite Ho. simpl. intros [= <-].
      split_and!; [in_list | done..]. }
  rewrite (bind_Ok _ _ fs fs o) by (unfold lift, getitem; by rewrite Ho).
  destruct (inp !! py "new_str") as [n|] eqn:Hn.
  2:{ unfold bind, lift, getitem. rewrite Hn. simpl. intros [= <-].
      split_and!; [in_list | done..]. }
  rewrite (bind_Ok _ _ fs fs n) by (unfold lift, getitem; by rewrite Hn).
  intros He. exfalso.
  match type of He with (?m fs).1 = _ =>
    assert (throws not_KeyError m) as Ht end.
  { apply throws_bind; [apply throws_query|]. intros found.
    destruct (negb found && bool_decide (o = [])).
    - apply throws_bind; [apply throws_query|]. intros pf.
      apply throws_bind.
      { destruct (negb pf); [|apply throws_ret].
        eapply throws_weaken; [apply library_error_not_KeyError|].
        apply throws_mkdir_parents. }
      intros _. apply throws_bind; [|intros _; apply throws_ret].
      eapply throws_weaken; [apply library_error_not_KeyError|].
      apply throws_write_text.
    - apply throws_bind; [apply throws_query|]. intros found'.
      destruct found'; cbn [negb]; [|by apply throws_raise].
      apply throws_bind; [apply throws_query|]. intros d.
      destruct d; [by apply throws_raise|].
      apply throws_bind.
      { eapply throws_weaken; [apply library_error_not_KeyError|].
        apply throws_read_with_fallback. }
      intros content. apply throws_bind; [|intros _; apply throws_ret].
      eapply throws_weaken; [apply library_error_not_KeyError|].
      apply throws_write_text. }
  apply (Ht fs _ He).
Qed.

Lemma missing_input_fails (E : Env) (inp : gmap pystr pystr) (fs : FS) :
  (inp !! py "path" = None →
   read_file E inp fs = (Raise (KeyError (py "path")), fs)
   ∧ edit_file E inp fs = (Raise (KeyError (py "path")), fs))
  ∧ (∀ p, inp !! py "path" = Some p →
       inp !! py "old_str" = None ∨ inp !! py "new_str" = None →
       ∃ e, edit_file E inp fs = (Raise e, fs)
            ∧ ((∃ k, e = KeyError k
                     ∧ k ∈ [py "old_str"; py "new_str"] ∧ inp !! k = None)
               ∨ ∃ msg, e = ValueError msg)).
Proof.
  split.
  - intros Hp. unfold read_file, edit_file, bind, lift, getitem.
    by rewrite Hp.
  - intros p Hp Hmissing. unfold edit_file.
    rewrite (bind_Ok _ _ fs fs p) by (unfold lift, getitem; by rewrite Hp).
    destruct (resolve_relative_cases E p)
      as [[_ H]|[(_ & _ & H)|[(_ & _ & _ & _ & H)|(_ & _ & _ & H)]]];
      rewrite H; try (eexists; split; [by unfold bind, lift | right; by eexists]).
    rewrite (bind_Ok _ _ fs fs (candidate E p)) by done.
    destruct (inp !! py "old_str") as [o|] eqn:Ho.
    2:{ exists (KeyError (py "old_str")). split.
        - unfold bind, lift, getitem. by rewrite Ho.
        - left. eexists. split_and!; [done | in_list | done]. }
    rewrite (bind_Ok _ _ fs fs o) by (unfold lift, getitem; by rewrite Ho).
    destruct Hmissing as [?|Hn]; [done|].
    exists (KeyError (py "new_str")). split.
    + unfold bind, lift, getitem. by rewrite Hn.
    + left. eexists. split_and!; [done | in_list | done].
Qed.

(** X8. The inputs a tool declares as required are the ones its handler
    reads with [inp[...]]: a [KeyError] names a required input that is
    missing and leaves the disk alone, so a call with all the required
    inputs never raises one; and a call that lacks a required input
    fails before it touches the disk, with this [KeyError] or, in
    [edit_file], with the [ValueError] of a rejected path. *)
Theorem required_inputs (E : Env) (t : ToolSpec) (inp : gmap pystr pystr)
    (fs : FS) :
  t ∈ ALL_TOOLS E →
  (∀ k, (fn t inp fs).1 = Raise (KeyError k) →
        k ∈ required t ∧ inp !! k = None ∧ (fn t inp fs).2 = fs)
  ∧ (∀ k, k ∈ required t → inp !! k = None →
          ∃ e, fn t inp fs = (Raise e, fs)
               ∧ ((∃ k', e = KeyError k' ∧ k' ∈ required t ∧ inp !! k' = None)
                  ∨ ∃ msg, e = ValueError msg)).
Proof.
  intros Ht. unfold ALL_TOOLS in Ht.
  apply elem_of_cons in Ht as [->|Ht];
    [|apply elem_of_cons in Ht as [->|Ht];
      [|apply list_elem_of_singleton in Ht as ->]]; simpl.
  - split.
    + intros k He. by apply (list_files_throws E inp fs) in He.
    + intros k Hk. by apply elem_of_nil in Hk.
  - split.
    + intros k He. destruct (read_file_throws E inp k fs He) as [-> Hp].
      split_and!; [in_list | done |].
      destruct (missing_input_fails E inp fs) as [Hm _].
      destruct (Hm Hp) as [-> _]. done.
    + intros k Hk Hnone. apply list_elem_of_singleton in Hk as ->.
      destruct (missing_input_fails E inp fs) as [Hm _].
      destruct (Hm Hnone) as [-> _]. eexists. split; [done|]. left.
      eexists. split_and!; [done | in_list | done].
  - split.
    + intros k. apply edit_file_throws.
    + intros k Hk Hnone.
      destruct (missing_input_fails E inp fs) as [Hm1 Hm2].
      destruct (inp !! py "path") as [p|] eqn:Hp.
      * destruct (Hm2 p eq_refl) as (e & He & Hcases).
        { rewrite !elem_of_cons in Hk.
          destruct Hk as [->|[->|[->|Hk]]]; simplify_eq;
            [by left | by right | by apply elem_of_nil in Hk]. }
        exists e. split; [done|].
        destruct Hcases as [(k' & -> & Hk' & Hnone')|?]; [left|by right].
        exists k'. split_and!; [done | | done].
        rewrite !elem_of_cons in Hk'. rewrite !elem_of_cons. tauto.
      * destruct (Hm1 eq_refl) as [_ ->]. eexists. split; [done|]. left.
        eexists. split_and!; [done | in_list | done].
Qed.

Lemma required_inputs_witness :
  ∃ e, fn (EDIT_FILE sample_env) (<[py "path" := py "a.txt"]> ∅) sample_disk
       = (Raise e, sample_disk)
       ∧ ((∃ k', e = KeyError k' ∧ k' ∈ required (EDIT_FILE sample_env)
                 ∧ (<[py "path" := py "a.txt"]> ∅ : gmap pystr pystr) !! k'
                   = None)
          ∨ ∃ msg, e = ValueError msg).
Proof.
  destruct (required_inputs sample_env (EDIT_FILE sample_env)
              (<[py "path" := py "a.txt"]> ∅) sample_disk) as [_ H].
  - unfold ALL_TOOLS. in_list.
  - apply (H (py "old_str")); [simpl; in_list | by vm_compute].
Defined.

(** ** The registry *)

Lemma tool_map_foldl (tools : list ToolSpec) (m : gmap pystr ToolSpec)
    (n : pystr) :
  foldl (λ m t, <[name t := t]> m) m tools !! n
  = match last (filter (λ t, name t = n) tools) with
    | Some t => Some t
    | None => m !! n
    end.
Proof.
  revert m. induction tools as [|t tools IH]; intros m; [done|].
  cbn [foldl]. rewrite IH, filter_cons.
  destruct (decide (name t = n)) as [<-|Hne].
  - rewrite last_cons. destruct (last (filter _ tools)); [done|].
    by rewrite lookup_insert_eq.
  - destruct (last (filter _ tools)); [done|].
    by rewrite lookup_insert_ne.
Qed.

Lemma filter_name_NoDup (tools : list ToolSpec) (t : ToolSpec) :
  NoDup (map name tools) → t ∈ tools →
  filter (λ t', name t' = name t) tools = [t].
Proof.
  induction tools as [|a tools IH]; intros Hnd Hin;
    [by apply elem_of_nil in Hin|].
  simpl in Hnd. apply NoDup_cons in Hnd as [Ha Hnd].
  assert (∀ x, x ∈ tools → name a ≠ name x) as Hfresh.
  { intros x Hx Heq. apply Ha. rewrite Heq.
    apply list_elem_of_fmap. by exists x. }
  apply elem_of_cons in Hin as [->|Hin].
  - rewrite filter_cons_True by done. f_equal.
    destruct (filter (λ t', name t' = name a) tools) as [|x l] eqn:Hf; [done|].
    assert (x ∈ filter (λ t', name t' = name a) tools) as Hx
      by (rewrite Hf; left).
    apply list_elem_of_filter in Hx as [Hn Hx]. by destruct (Hfresh x Hx).
  - rewrite filter_cons_False by (by apply Hfresh). by apply IH.
Qed.

(** X9. In a registry built from a list of tools a name is bound to the
    last tool of the list that carries it, and to nothing when no tool
    does; so every tool of a list without repeated names is reached under
    its own name. *)
Theorem tool_map_lookup (tools : list ToolSpec) (n : pystr) :
  tool_map tools !! n = last (filter (λ t, name t = n) tools)
  ∧ (tool_map tools !! n = None ↔ n ∉ map name tools)
  ∧ (NoDup (map name tools) →
     ∀ t, t ∈ tools → tool_map tools !! name t = Some t).
Proof.
  assert (∀ n, tool_map tools !! n = last (filter (λ t, name t = n) tools))
    as Hl.
  { intros n'. unfold tool_map. rewrite tool_map_foldl.
    by destruct (last (filter _ tools)). }
  split_and!; [done| |].
  - rewrite Hl, last_None. split.
    + intros Hnil Hin. apply list_elem_of_fmap in Hin as (t & -> & Hin).
      assert (t ∈ filter (λ t', name t' = name t) tools) as Hf
        by (by apply list_elem_of_filter).
      rewrite Hnil in Hf. by apply elem_of_nil in Hf.
    + intros Hnot.
      destruct (filter (λ t, name t = n) tools) as [|x l] eqn:Hf; [done|].
      assert (x ∈ filter (λ t, name t = n) tools) as Hx by (rewrite Hf; left).
      apply list_elem_of_filter in Hx as [Hn Hx]. destruct Hnot.
      apply list_elem_of_fmap. by exists x.
  - intros Hnd t Ht. by rewrite Hl, filter_name_NoDup.
Qed.

Lemma tool_map_lookup_witness :
  TOOL_MAP sample_env !! py "read_file" = Some (READ_FILE sample_env).
Proof.
  destruct (tool_map_lookup (ALL_TOOLS sample_env) (py "read_file"))
    as (_ & _ & H).
  assert (NoDup (map name (ALL_TOOLS sample_env))) as Hnd
    by (apply (bool_decide_eq_true_1
                 (NoDup (map name (ALL_TOOLS sample_env)))); vm_compute;
        reflexivity).
  apply (H Hnd (READ_FILE sample_env)).
  unfold ALL_TOOLS. in_list.
Defined.

(** ** The ignore sources of [list_files] *)

Lemma ignore_lines_source (path : fspath) (fs : FS) :
  match source_lines fs path with
  | Some lines => ignore_lines path fs = (Ok lines, fs)
  | None =>
      ∃ data, stat fs path = Some (File data) ∧ utf8_decode data = None
              ∧ ignore_lines path fs = (Raise (UnicodeDecodeError data), fs)
  end.
Proof.
  unfold source_lines, ignore_lines, bind, query, ret, is_file, read_text.
  destruct (stat fs path) as [[data|es]|] eqn:Hs; rewrite ?Hs; try done.
  destruct (utf8_decode data) eqn:Hd; [done|]. by exists data.
Qed.

Lemma _get_gitignore_sources (E : Env) (root : fspath) (fs : FS) :
  match mapM (source_lines fs) (ignore_sources E root) with
  | Some ls => _get_gitignore E root fs = (Ok (gitwildmatch E (concat ls)), fs)
  | None =>
      ∃ src data,
        src ∈ ignore_sources E root
        ∧ stat fs src = Some (File data) ∧ utf8_decode data = None
        ∧ _get_gitignore E root fs = (Raise (UnicodeDecodeError data), fs)
  end.
Proof.
  unfold _get_gitignore, ignore_sources.
  change (Path_parts (py ".gitignore")) with [py ".gitignore"].
  change (Path_parts (py ".git/info/exclude"))
    with [py ".git"; py "info"; py "exclude"].
  set (s1 := root ++ [py ".gitignore"]).
  set (s2 := root ++ [py ".git"; py "info"; py "exclude"]).
  pose proof (ignore_lines_source s1 fs) as H1.
  pose proof (ignore_lines_source s2 fs) as H2.
  cbn [app mapM]. unfold mbind, option_bind, mret, option_ret.
  destruct (source_lines fs s1) as [l1|].
  2:{ destruct H1 as (data & Hs & Hd & H1). exists s1, data.
      split_and!; [in_list | done | done |].
      by rewrite (bind_Raise _ _ _ _ _ H1). }
  rewrite (bind_Ok _ _ _ _ _ H1).
  destruct (source_lines fs s2) as [l2|].
  2:{ destruct H2 as (data & Hs & Hd & H2). exists s2, data.
      split_and!; [in_list | done | done |].
      by rewrite (bind_Raise _ _ _ _ _ H2). }
  rewrite (bind_Ok _ _ _ _ _ H2).
  destruct (core_excludesFile E) as [g|]; cbn [app mapM].
  - pose proof (ignore_lines_source g fs) as H3.
    unfold mbind, option_bind, mret, option_ret.
    destruct (source_lines fs g) as [l3|].
    + rewrite (bind_Ok _ _ _ _ _ H3). simpl. by rewrite app_nil_r.
    + destruct H3 as (data & Hs & Hd & H3). exists g, data.
      split_and!; [in_list | done | done |].
      by rewrite (bind_Raise _ _ _ _ _ H3).
  - done.
Qed.

(** X10. What [list_files] ignores in a directory is compiled from the
    lines of [.gitignore], of [.git/info/exclude] and of the global
    excludes file, in this order; a source that is missing or is a
    directory contributes nothing.  A source that is a regular file with
    bytes that are not UTF-8 makes the whole call fail with
    [UnicodeDecodeError]: there is no fallback as in [read_file]. *)
Theorem list_files_ignore_sources (E : Env) (inp : gmap pystr pystr)
    (fs : FS) (es : list (pystr * node)) :
  let base_dir := resolve E (default (py ".") (inp !! py "path")) in
  stat fs base_dir = Some (Dir es) →
  match mapM (source_lines fs) (ignore_sources E base_dir) with
  | Some ls =>
      list_files E inp fs
      = (Ok (json_dumps
               (sorted (walk (gitwildmatch E (concat ls)) [] (Dir es)))), fs)
  | None =>
      ∃ src data,
        src ∈ ignore_sources E base_dir
        ∧ stat fs src = Some (File data) ∧ utf8_decode data = None
        ∧ list_files E inp fs = (Raise (UnicodeDecodeError data), fs)
  end.
Proof.
  intros base_dir Hs.
  pose proof (list_files_cases E inp fs) as Hc. cbv zeta in Hc.
  fold base_dir in Hc. rewrite Hs in Hc.
  pose proof (_get_gitignore_sources E base_dir fs) as Hg.
  destruct (mapM (source_lines fs) (ignore_sources E base_dir)) as [ls|].
  - destruct Hc as [(ig & Hig & Hc)|(d & Hd & _)]; [|by rewrite Hg in Hd].
    rewrite Hg in Hig. by simplify_eq.
  - destruct Hg as (src & data & Hin & Hst & Hdec & Hg).
    exists src, data. split_and!; try done.
    destruct Hc as [(ig & Hig & _)|(d & Hd & Hc)]; [by rewrite Hg in Hig|].
    rewrite Hg in Hd. by simplify_eq.
Qed.

Lemma list_files_ignore_sources_witness :
  list_files sample_env ∅ sample_disk
  = (Ok (json_dumps
           (sorted (walk (gitwildmatch sample_env [py "build/"]) []
                      (Dir [(py "a.txt", File (raw "hello"));
                            (py ".gitignore", File (raw "build/"));
                            (py "build", Dir [(py "out.o", File [])]);
                            (py "src",
                             Dir [(py "m.py", File (raw "x = 1"))])])))),
     sample_disk).
Proof.
  pose proof (list_files_ignore_sources sample_env ∅ sample_disk
                [(py "a.txt", File (raw "hello"));
                 (py ".gitignore", File (raw "build/"));
                 (py "build", Dir [(py "out.o", File [])]);
                 (py "src", Dir [(py "m.py", File (raw "x = 1"))])]) as H.
  cbv zeta in H.
  assert (mapM (source_lines sample_disk)
            (ignore_sources sample_env (resolve sample_env (py ".")))
          = Some [[py "build/"]; []]) as Hm by (by vm_compute).
  change (default (py ".") ((∅ : gmap pystr pystr) !! py "path"))
    with (py ".") in H.
  rewrite Hm in H. apply H. by vm_compute.
Defined.

(** ** A session: [loop] and [handle] *)

Section Session.
Context (E : Env).

#[local] Instance continues_refl : Reflexive (continues E).
Proof.
  intros w. split_and!; try done. exists []. by rewrite app_nil_r.
Qed.

#[local] Instance continues_trans : Transitive (continues E).
Proof.
  intros w1 w2 w3 (Hc1 & (r1 & Hr1 & Hf1) & Hp1 & Hd1)
                  (Hc2 & (r2 & Hr2 & Hf2) & Hp2 & Hd2).
  split_and!.
  - by etrans.
  - exists (r1 ++ r2). split; [by rewrite Hr2, Hr1, app_assoc|].
    apply Forall_app. split.
    + eapply Forall_impl; [exact Hf1|]. intros req [? ?].
      split; [done | by etrans].
    + eapply Forall_impl; [exact Hf2|]. intros req [? ?].
      split; [by etrans | done].
  - by etrans.
  - by etrans.
Qed.








Lemma length_new_requests (new_reqs : list (list MessageParam))
    (ms : list Message) :
  map (λ req, kind_of <$> last req) new_reqs
  = map (λ id, Some (ToolResultFor id))
        (flat_map (λ m, tool_use_ids (content m)) ms) →
  length new_reqs = total_tool_uses ms.
Proof.
  intros H. apply (f_equal length) in H. rewrite !length_map in H.
  by rewrite H, length_flat_map_tool_use_ids.
Qed.

Lemma prompts_cons (l : pystr) (lines : list pystr) :
  prompts (l :: lines)
  = if bool_decide (l = []) then prompts lines else l :: prompts lines.
Proof.
  unfold prompts. rewrite filter_cons. case_bool_decide.
  - by rewrite decide_False by (by intros ?).
  - by rewrite decide_True.
Qed.

(** With fuel for one round of [handle] per reply, [loop] comes to the
    end of its input or to a failed call of the model. *)
Lemma loop_ends (fuel : nat) (lines : list pystr) :
  ∀ w, (length (replies w) + 1 < fuel)%nat →
  ∃ r w',
    loop E fuel lines w = Some (r, w')
    ∧ (r = Ok tt ∨ r = Raise TransportError)
    ∧ (r = Ok tt →
       (length (requests w') + dispatches (CONV w)
        = length (requests w) + dispatches (CONV w')
          + length (prompts lines))%nat
       ∧ (length (replies w') + length (requests w')
          = length (replies w) + length (requests w))%nat).
Proof.
  induction lines as [|l lines IH]; intros w Hfuel; cbn [loop].
  { exists (Ok tt), w. split_and!; [done | by left |]. intros _.
    unfold prompts. simpl. lia. }
  rewrite prompts_cons. case_bool_decide as Hl; [apply IH, Hfuel|].
  unfold loop_round, handle.
  set (param := {| mp_role := py "user";
                   mp_content := Dicts [text_param l] |}).
  unfold create. change (replies (CONV_append param w)) with (replies w).
  destruct (replies w) as [|m rest] eqn:Hreplies.
  { eexists _, _. split_and!; [done | by right | done]. }
  set (w2 := {| CONV := CONV (CONV_append param w);
                disk := disk (CONV_append param w); replies := rest;
                requests := requests (CONV_append param w)
                            ++ [CONV (CONV_append param w)] |}).
  destruct (while_pending_spec E (role m) fuel [m] w2)
    as (r1 & w3 & Hrun & Hr1); [simpl in *; lia|].
  rewrite Hrun. destruct r1 as [[]|e].
  2:{ destruct Hr1 as [-> _]. exists (Raise TransportError), w3.
      split_and!; [done | by right | done]. }
  destruct Hr1 as (used & new_reqs & Hrep & Htotal & _ & Hconv & Hreqs & Hlast).
  apply length_new_requests in Hlast.
  assert (dispatches (CONV w3)
          = dispatches (CONV w) + total_tool_uses ([m] ++ used))%nat as Hdisp.
  { unfold dispatches. rewrite Hconv, count_tool_results_app.
    rewrite count_tool_results_entries. f_equal. simpl.
    rewrite map_app, count_tool_results_app. simpl.
    unfold param. rewrite kind_of_text_param. unfold count_tool_results.
    simpl. lia. }
  assert (length (replies w3) + length used = length rest)%nat as Hlen.
  { simpl in Hrep. rewrite Hrep, length_app. lia. }
  destruct (IH w3) as (r & w' & Hloop & Hkind & Hok); [simpl in *; lia|].
  exists r, w'. split_and!; [done | done |].
  intros Hr. destruct (Hok Hr) as [Hacc Hbal].
  assert (length (requests w3)
          = length (requests w) + 1 + length new_reqs)%nat as Hreq3.
  { rewrite Hreqs. simpl. rewrite !length_app. simpl. lia. }
  simpl length. split; lia.
Qed.
End Session.





(** ** From [list_files] to [read_file] *)

Lemma split_no_sep (x : pystr) : slash ∉ x → split slash x = [x].
Proof.
  induction x as [|c x IH]; intros Hx; [done|].
  apply not_elem_of_cons in Hx as [Hc Hx]. cbn [split].
  rewrite (proj2 (N.eqb_neq c slash)) by done. by rewrite IH.
Qed.

Lemma split_app_sep (x s : pystr) :
  slash ∉ x → split slash (x ++ slash :: s) = x :: split slash s.
Proof.
  induction x as [|c x IH]; intros Hx; [done|]. cbn [app split].
  apply not_elem_of_cons in Hx as [Hc Hx].
  rewrite (proj2 (N.eqb_neq c slash)) by done. by rewrite IH.
Qed.

Lemma split_join (comps : list pystr) :
  comps ≠ [] → Forall valid_name comps →
  split slash (join [slash] comps) = comps
  ∧ split slash (join [slash] comps ++ [slash]) = comps ++ [[]].
Proof.
  intros Hne Hv. induction Hv as [|x comps (_ & _ & _ & Hx) Hv IH]; [done|].
  destruct comps as [|y comps].
  - simpl. split; [by apply split_no_sep|].
    by rewrite (split_app_sep x []).
  - destruct IH as [IH1 IH2]; [done|].
    change (join [slash] (x :: y :: comps))
      with (x ++ slash :: join [slash] (y :: comps)).
    generalize dependent (join [slash] (y :: comps)). intros j IH1 IH2.
    split.
    + by rewrite split_app_sep, IH1.
    + rewrite <-app_assoc. change ((slash :: j) ++ [slash])
        with (slash :: (j ++ [slash])).
      by rewrite split_app_sep, IH2.
Qed.

Lemma filter_keep_valid (comps : list pystr) :
  Forall valid_name comps →
  filter (λ x, keep_segment x = true) comps = comps.
Proof.
  induction 1 as [|x comps (Hne & Hdot & _ & _) Hv IH]; [done|].
  rewrite filter_cons_True, IH; [done|].
  unfold keep_segment. by rewrite !bool_decide_eq_false_2.
Qed.

(** The string [list_files] reports for an entry parses back to the
    components of the entry, with or without the slash of a directory. *)
Lemma Path_parts_as_posix (comps : list pystr) :
  comps ≠ [] → Forall valid_name comps →
  Path_parts (as_posix comps) = comps
  ∧ Path_parts (as_posix comps ++ [slash]) = comps
  ∧ as_posix comps ≠ []
  ∧ is_absolute (as_posix comps) = false
  ∧ is_absolute (as_posix comps ++ [slash]) = false.
Proof.
  intros Hne Hv. destruct (split_join comps Hne Hv) as [H1 H2].
  destruct comps as [|x comps]; [done|]. clear Hne.
  unfold Path_parts, as_posix. rewrite H1, H2, filter_app.
  rewrite filter_keep_valid by done.
  apply Forall_cons in Hv as [(Hx & _ & _ & Hs) _].
  destruct x as [|c x]; [done|]. apply not_elem_of_cons in Hs as [Hc _].
  assert (∃ rest, join [slash] ((c :: x : pystr) :: comps) = c :: rest)
    as [rest Hj].
  { destruct comps; simpl; by eexists. }
  clear H1 H2. rewrite Hj.
  split_and!; try done.
  - by rewrite app_nil_r.
  - simpl. by apply N.eqb_neq.
  - simpl. by apply N.eqb_neq.
Qed.

Lemma valid_tree_assoc (es : list (pystr * node)) (x : pystr) (c : node) :
  valid_tree (Dir es) = true → assoc x es = Some c →
  valid_name x ∧ valid_tree c = true.
Proof.
  induction es as [|[k v] es IH]; [done|]. cbn [valid_tree assoc].
  intros Hv. apply andb_prop in Hv as [Hv Hrest].
  apply andb_prop in Hv as [Hk Hc]. apply bool_decide_eq_true_1 in Hk.
  case_bool_decide as Hkx.
  - intros [= <-]. by subst.
  - by apply IH.
Qed.

Lemma valid_tree_lookup (comps : list pystr) :
  ∀ n n', valid_tree n = true → lookup_node n comps = Some n' →
          Forall valid_name comps.
Proof.
  induction comps as [|x comps IH]; intros n n' Hv Hl; [constructor|].
  destruct n as [d|es]; [done|]. simpl in Hl.
  destruct (assoc x es) as [c|] eqn:Ha; [|done].
  destruct (valid_tree_assoc es x c Hv Ha) as [Hx Hc].
  constructor; [done | by eapply IH].
Qed.

Lemma not_dotdot_valid (comps : list pystr) :
  Forall valid_name comps → py ".." ∉ comps.
Proof.
  intros Hv Hin. rewrite Forall_forall in Hv.
  by destruct (Hv _ Hin) as (_ & _ & ? & _).
Qed.

Lemma last_as_posix (init : list pystr) (x : pystr) (c : N) :
  last (as_posix (init ++ [x ++ [c]])) = Some c.
Proof.
  assert (last (join [slash] (init ++ [x ++ [c]])) = Some c) as Hj.
  { induction init as [|y init IH]; simpl; [by rewrite last_snoc|].
    destruct (init ++ [x ++ [c]]) as [|z l] eqn:Hi; [by destruct init|].
    change (y ++ slash :: ?t) with (y ++ [slash] ++ t).
    by rewrite !last_app, IH. }
  unfold as_posix. by destruct (init ++ [x ++ [c]]) eqn:Hi; [destruct init|].
Qed.

(** X13. What [list_files] reports for the project root can be handed to
    [read_file] as it is: in a tree whose entries have proper names, every
    path of the listing is accepted by the sandbox and found; an entry
    without a slash at its end is read, and an entry with one is refused
    as a directory. *)
Theorem listed_paths_are_readable (E : Env) (fs : FS)
    (es : list (pystr * node)) (ignore : pystr → bool) :
  stat fs (project_root E) = Some (Dir es) →
  wf_node (Dir es) →
  valid_tree (Dir es) = true →
  _get_gitignore E (project_root E) fs = (Ok ignore, fs) →
  ∃ l,
    list_files E ∅ fs = (Ok (json_dumps l), fs)
    ∧ ∀ r, r ∈ l →
        ∃ comps n,
          _resolve_relative E r = Ok (project_root E ++ comps)
          ∧ stat fs (project_root E ++ comps) = Some n
          ∧ match n with
            | File data =>
                last r ≠ Some slash
                ∧ read_file E (<[py "path" := r]> ∅) fs
                  = (Ok (file_text data), fs)
            | Dir _ =>
                last r = Some slash
                ∧ fails_with (read_file E (<[py "path" := r]> ∅) fs).1
                             IsADirectory
            end.
Proof.
  intros Hs Hwf Hv Hg.
  pose proof (list_files_cases E ∅ fs) as Hc. cbv zeta in Hc.
  change (resolve E (default (py ".") ((∅ : gmap pystr pystr) !! py "path")))
    with (project_root E) in Hc.
  rewrite Hs in Hc.
  destruct Hc as [(ig & Hig & Hrun)|(d & Hd & _)]; [|by rewrite Hg in Hd].
  rewrite Hg in Hig. simplify_eq.
  exists (sorted (walk ig [] (Dir es))). split; [done|].
  intros r Hr. rewrite sorted_Permutation in Hr.
  apply (walk_listed ig (Dir es) Hwf) in Hr
    as (comps & n & Hne & Hl & _ & _ & Hn).
  simpl app in Hn.
  pose proof (valid_tree_lookup comps _ _ Hv Hl) as Hvalid.
  destruct (Path_parts_as_posix comps Hne Hvalid)
    as (Hp1 & Hp2 & Hne1 & Habs1 & Habs2).
  assert (stat fs (project_root E ++ comps) = Some n) as Hstat.
  { unfold stat in *. by rewrite lookup_node_app, Hs. }
  assert (_resolve_relative E r = Ok (project_root E ++ comps)) as Hres.
  { destruct n as [data|sub].
    - subst r. rewrite <-Hp1 at 2. apply resolve_relative_plain; try done.
      rewrite Hp1. by apply not_dotdot_valid.
    - destruct Hn as [_ ->]. rewrite <-Hp2 at 2.
      apply resolve_relative_plain; try done.
      + by destruct (as_posix comps).
      + rewrite Hp2. by apply not_dotdot_valid. }
  exists comps, n. split_and!; try done.
  assert ((<[py "path" := r]> ∅ : gmap pystr pystr) !! py "path" = Some r)
    as Hpath by apply lookup_insert_eq.
  rewrite (read_file_cases E _ r _ fs Hpath Hres), Hstat.
  destruct n as [data|sub].
  - split; [|done]. subst r. intros Hlast.
    destruct (exists_last (l := comps)) as (init & x & ->); [done|].
    apply Forall_app in Hvalid as [_ Hx].
    apply Forall_cons in Hx as [(Hx & _ & _ & Hsl) _].
    destruct (exists_last (l := x)) as (x' & c & ->); [done|].
    rewrite last_as_posix in Hlast. simplify_eq. apply Hsl.
    apply elem_of_app. right. left.
  - destruct Hn as [_ ->]. split; [by rewrite last_snoc|].
    by eexists.
Qed.

Lemma listed_paths_are_readable_witness :
  ∃ l,
    list_files sample_env ∅ sample_disk = (Ok (json_dumps l), sample_disk)
    ∧ ∀ r, r ∈ l →
        ∃ comps n,
          _resolve_relative sample_env r
          = Ok (project_root sample_env ++ comps)
          ∧ stat sample_disk (project_root sample_env ++ comps) = Some n.
Proof.
  destruct (listed_paths_are_readable sample_env sample_disk
              [(py "a.txt", File (raw "hello"));
               (py ".gitignore", File (raw "build/"));
               (py "build", Dir [(py "out.o", File [])]);
               (py "src", Dir [(py "m.py", File (raw "x = 1"))])]
              (gitwildmatch sample_env [py "build/"]))
    as (l & Hrun & Hall).
  - by vm_compute.
  - simpl. split_and!; try done; apply (bool_decide_unpack _); by vm_compute.
  - by vm_compute.
  - by vm_compute.
  - exists l. split; [exact Hrun|]. intros r Hr.
    destruct (Hall r Hr) as (comps & n & Hres & Hstat & _).
    by exists comps, n.
Defined.

(** ** Creation below a regular file *)

Lemma mkdir_node_under_file (q : fspath) (x : pystr) (r : fspath) (d : bytes)
    (n : node) :
  lookup_node n q = Some (File d) → mkdir_node (q ++ x :: r) n = inl ENOTDIR.
Proof.
  revert n. induction q as [|y q IH]; intros n; simpl.
  - by intros [= ->].
  - destruct n as [d'|es]; [done|]. destruct (assoc y es) as [c|]; [|done].
    intros Hc. by rewrite (IH c Hc).
Qed.

Lemma lookup_node_under_file (q : fspath) (x : pystr) (r : fspath) (d : bytes)
    (n : node) :
  lookup_node n q = Some (File d) → lookup_node n (q ++ x :: r) = None.
Proof. intros Hq. by rewrite lookup_node_app, Hq. Qed.

(** X14. A file cannot be created below a regular file: when some proper
    ancestor of the target is a regular file, [edit_file] with an empty
    [old_str] fails with [ENOTDIR], from [mkdir] at the parent or from
    [open] at the target, and nothing is created on the way. *)
Theorem edit_file_create_below_file (E : Env) (inp : gmap pystr pystr)
    (p n : pystr) (target q : fspath) (d : bytes) (fs : FS) :
  inp !! py "path" = Some p →
  inp !! py "old_str" = Some [] →
  inp !! py "new_str" = Some n →
  _resolve_relative E p = Ok target →
  q `prefix_of` target → q ≠ target →
  stat fs q = Some (File d) →
  ∃ at_path,
    (at_path = target ∨ at_path = parent target)
    ∧ edit_file E inp fs = (Raise (OSError ENOTDIR at_path), fs).
Proof.
  intros Hp Ho Hn Hres [r ->] Hne Hq.
  assert (inp !! py "old_str" = Some ([] : pystr)) as Ho' by exact Ho.
  destruct (exists_last (l := r)) as (r' & name & ->).
  { intros ->. by rewrite app_nil_r in Hne. }
  assert (parent (q ++ r' ++ [name]) = q ++ r') as Hparent.
  { unfold parent. by rewrite app_assoc, removelast_last. }
  assert (stat fs (q ++ r' ++ [name]) = None) as Hs.
  { unfold stat in *. destruct r' as [|x r']; simpl;
      by apply (lookup_node_under_file q _ _ d). }
  pose (creation :=
    let! parent_found := query (λ fs, exists_ fs (q ++ r')) in
    let! _ := (if negb parent_found then mkdir_parents (q ++ r')
               else ret tt) in
    let! _ := write_text (q ++ r' ++ [name]) n in
    ret (py "Created new file: " ++ p)).
  assert (edit_file E inp fs = creation fs) as Hedit.
  { unfold edit_file.
    rewrite (bind_Ok (lift (getitem inp (py "path"))) _ fs fs p)
      by (unfold lift, getitem; by rewrite Hp).
    rewrite (bind_Ok (lift (_resolve_relative E p)) _ fs fs
               (q ++ r' ++ [name])) by (unfold lift; by rewrite Hres).
    rewrite (bind_Ok (lift (getitem inp (py "old_str"))) _ fs fs [])
      by (unfold lift, getitem; by rewrite Ho').
    rewrite (bind_Ok (lift (getitem inp (py "new_str"))) _ fs fs n)
      by (unfold lift, getitem; by rewrite Hn).
    rewrite (bind_Ok (query (λ fs, exists_ fs (q ++ r' ++ [name]))) _ fs fs
               false) by (unfold query, exists_; by rewrite Hs).
    cbn [negb andb]. rewrite bool_decide_eq_true_2 by done.
    by rewrite Hparent. }
  rewrite Hedit. clear Hedit. unfold creation. clear creation.
  destruct r' as [|x r'].
  - exists (q ++ [name]). split; [by left|].
    rewrite (bind_Ok _ _ fs fs true)
      by (unfold query, exists_; by rewrite app_nil_r, Hq).
    cbn [negb]. rewrite (bind_Ok _ _ fs fs tt) by done.
    apply bind_Raise. unfold write_text. apply bind_Raise. simpl app.
    by apply (store_under_file fs q name [] d).
  - exists (q ++ x :: r'). split; [by right|].
    assert (stat fs (q ++ x :: r') = None) as Hs'
      by (unfold stat in *; by apply (lookup_node_under_file q _ _ d)).
    rewrite (bind_Ok _ _ fs fs false)
      by (unfold query, exists_; by rewrite Hs').
    cbn [negb]. apply bind_Raise.
    unfold mkdir_parents. unfold stat in Hq.
    by rewrite (mkdir_node_under_file q x r' d (Dir fs) Hq).
Qed.

Lemma edit_file_create_below_file_witness :
  ∃ at_path,
    (at_path = [py "home"; py "proj"; py "a.txt"; py "sub"; py "new.txt"]
     ∨ at_path
       = parent [py "home"; py "proj"; py "a.txt"; py "sub"; py "new.txt"])
    ∧ edit_file sample_env
        (<[py "new_str" := py "x"]> (<[py "old_str" := []]>
         (<[py "path" := py "a.txt/sub/new.txt"]> ∅))) sample_disk
      = (Raise (OSError ENOTDIR at_path), sample_disk).
Proof.
  apply (edit_file_create_below_file sample_env _ (py "a.txt/sub/new.txt")
           (py "x") _ [py "home"; py "proj"; py "a.txt"] (raw "hello"));
    [by vm_compute | by vm_compute | by vm_compute | by vm_compute
    | by exists [py "sub"; py "new.txt"] | | by vm_compute].
  intros H. by apply (f_equal length) in H.
Defined.

(** ** What [edit_file] leaves in place *)



#[global] Instance spares_refl target : Reflexive (spares target).
Proof. by intros fs. Qed.

#[global] Instance spares_trans target : Transitive (spares target).
Proof.
  intros fs1 fs2 fs3 (Hf1 & Hd1 & He1) (Hf2 & Hd2 & He2). split_and!.
  - intros q d Hq Hs. by apply Hf2, Hf1.
  - intros q Hs. by apply Hd2, Hd1.
  - intros q Hs. by apply He2, He1.
Qed.







(** ** Sessions without edits *)

Section ReadOnly.
Context (E : Env).

Lemma for_blocks_read_only (bs : list block) :
  (∀ id tool input, ToolUse id tool input ∈ bs → tool ≠ py "edit_file") →
  ∀ pending w,
    Forall reads_only pending → Forall reads_only (replies w) →
    disk (for_blocks E bs pending w).2 = disk w
    ∧ Forall reads_only (replies (for_blocks E bs pending w).2)
    ∧ ∀ pending', (for_blocks E bs pending w).1 = Ok pending' →
                  Forall reads_only pending'.
Proof.
  induction bs as [|b bs IH]; intros Hbs pending w Hpending Hreplies.
  { simpl. split_and!; try done. by intros ? [= <-]. }
  assert (∀ id tool input, ToolUse id tool input ∈ bs → tool ≠ py "edit_file")
    as Hrest by (intros ??? Hin; eapply Hbs; by right).
  destruct b as [text|id tool input|ty]; cbn [for_blocks]; [by apply IH| |by apply IH].
  assert (tool ≠ py "edit_file") as Htool by (eapply Hbs; left).
  pose proof (run_tool_read_only E id tool input (disk w) Htool) as Hd.
  destruct (run_tool E id tool input (disk w)) as [[rb|e] fs']; simpl in Hd;
    subst fs'; [|by destruct w].
  unfold create. cbn [replies CONV_append with_disk].
  destruct (replies w) as [|m rest] eqn:Hr; [by simpl|].
  apply Forall_cons in Hreplies as [Hm Hrest'].
  match goal with |- context [for_blocks E bs _ ?w2] =>
    destruct (IH Hrest (pending ++ [m]) w2) as (Hd2 & Hr2 & Hp2) end.
  - apply Forall_app. split; [done | by constructor].
  - done.
  - split_and!; done.
Qed.

Lemma while_pending_read_only (role0 : pystr) :
  ∀ fuel pending w r w',
    Forall reads_only pending → Forall reads_only (replies w) →
    while_pending E fuel role0 pending w = Some (r, w') →
    disk w' = disk w ∧ Forall reads_only (replies w').
Proof.
  induction fuel as [|fuel IH]; intros pending w r w' Hpending Hreplies.
  - destruct pending; [|done]. by intros [= _ <-].
  - destruct pending as [|current rest]; [by intros [= _ <-]|].
    apply Forall_cons in Hpending as [Hcur Hrest].
    cbn [while_pending]. unfold loop_body.
    match goal with |- context [for_blocks E _ rest ?w1] =>
      destruct (for_blocks_read_only (content current) Hcur rest w1 Hrest Hreplies)
        as (Hd & Hr & Hp);
      destruct (for_blocks E (content current) rest w1) as [[pending'|e] w2]
    end; simpl in Hd, Hr, Hp.
    + intros Hrun.
      destruct (IH pending' w2 r w' (Hp _ eq_refl) Hr Hrun) as [Hd' Hr'].
      split; [by rewrite Hd', Hd | done].
    + by intros [= _ <-].
Qed.

Lemma loop_read_only (fuel : nat) (lines : list pystr) :
  ∀ w r w',
    Forall reads_only (replies w) →
    loop E fuel lines w = Some (r, w') → disk w' = disk w.
Proof.
  induction lines as [|l lines IH]; intros w r w' Hreplies; cbn [loop].
  - by intros [= _ <-].
  - case_bool_decide; [by apply IH|].
    unfold loop_round, handle, create. cbn [replies CONV_append].
    destruct (replies w) as [|m rest] eqn:Hr; [by intros [= _ <-]|].
    apply Forall_cons in Hreplies as [Hm Hrest].
    match goal with |- context [while_pending E fuel (role m) [m] ?w2] =>
      destruct (while_pending E fuel (role m) [m] w2) as [[r1 w3]|] eqn:Hrun;
        [|done];
      destruct (while_pending_read_only (role m) fuel [m] w2 r1 w3) as [Hd Hr3];
        [by constructor | done | done |]
    end.
    simpl in Hd.
    destruct r1 as [[]|e]; [|intros [= _ <-]; done].
    intros Hloop. by rewrite (IH w3 r w' Hr3 Hloop).
Qed.
End ReadOnly.

(** X16. A session in which the model never asks for [edit_file] leaves
    the disk exactly as it was, however many tools it runs and however it
    ends. *)
Theorem read_only_session (E : Env) (fuel : nat) (lines : list pystr)
    (w : World) :
  (length (replies w) + 1 < fuel)%nat →
  Forall reads_only (replies w) →
  ∃ r w', loop E fuel lines w = Some (r, w') ∧ disk w' = disk w.
Proof.
  intros Hfuel Hreplies.
  destruct (loop_ends E fuel lines w Hfuel) as (r & w' & Hloop & _).
  exists r, w'. split; [done|]. by eapply loop_read_only.
Qed.

Lemma read_only_session_witness :
  ∃ r w',
    loop sample_env 4 [py "what is here?"]
      {| CONV := []; disk := sample_disk;
         replies := [{| role := py "assistant";
                        content := [ToolUse (py "toolu_01") (py "list_files")
                                      ∅] |};
                     {| role := py "assistant";
                        content := [Text (py "four entries")] |}];
         requests := [] |} = Some (r, w')
    ∧ disk w' = sample_disk.
Proof.
  apply (read_only_session sample_env 4 [py "what is here?"]
           {| CONV := []; disk := sample_disk;
              replies := [{| role := py "assistant";
                             content := [ToolUse (py "toolu_01")
                                           (py "list_files") ∅] |};
                          {| role := py "assistant";
                             content := [Text (py "four entries")] |}];
              requests := [] |}); [simpl; lia|].
  repeat constructor; intros id tool input Hin;
    repeat (apply elem_of_cons in Hin as [Hin|Hin]; [by simplify_eq|]);
    by apply elem_of_nil in Hin.
Defined.

(** ** [list_files]: no path twice *)

Lemma NoDup_flat_map {A B} (f : A → list B) (l : list A) :
  NoDup l →
  (∀ x, x ∈ l → NoDup (f x)) →
  (∀ x y z, x ∈ l → y ∈ l → z ∈ f x → z ∈ f y → x = y) →
  NoDup (flat_map f l).
Proof.
  induction 1 as [|a l Ha Hnd IH]; intros Hf Hinj; [constructor|].
  simpl. apply NoDup_app. split_and!.
  - apply Hf. left.
  - intros z Hz Hin. apply list_elem_of_In, in_flat_map in Hin as (y & Hy & Hzy).
    apply list_elem_of_In in Hy, Hzy.
    assert (a = y) as -> by (apply (Hinj a y z); [left | by right | done..]).
    done.
  - apply IH.
    + intros x Hx. apply Hf. by right.
    + intros x y z Hx Hy. apply Hinj; by right.
Qed.

Lemma nondirs_names (es : list (pystr * node)) (x : pystr) :
  x ∈ nondirs es → x ∈ map fst es.
Proof.
  intros (b & Hin)%elem_of_nondirs. apply list_elem_of_fmap. by exists (x, File b).
Qed.

Lemma subdirs_names (es : list (pystr * node)) (x : pystr) :
  x ∈ subdirs es → x ∈ map fst es.
Proof.
  intros (sub & Hin)%elem_of_subdirs. apply list_elem_of_fmap.
  by exists (x, Dir sub).
Qed.

Lemma names_NoDup (P : pystr → Prop) `{!∀ x, Decision (P x)}
    (es : list (pystr * node)) :
  NoDup (map fst es) → NoDup (nondirs es ++ filter P (subdirs es)).
Proof.
  induction es as [|[k v] es IH]; intros Hnd; [constructor|].
  simpl in Hnd. apply NoDup_cons in Hnd as [Hk Hnd]. specialize (IH Hnd).
  assert (k ∉ nondirs es ++ filter P (subdirs es)) as Hfresh.
  { intros [Hin|Hin]%elem_of_app; apply Hk.
    - by apply nondirs_names.
    - apply list_elem_of_filter in Hin as [_ Hin]. by apply subdirs_names. }
  destruct v as [b|sub].
  - change (nondirs ((k, File b) :: es)) with (k :: nondirs es).
    change (subdirs ((k, File b) :: es)) with (subdirs es).
    simpl. by constructor.
  - change (nondirs ((k, Dir sub) :: es)) with (nondirs es).
    change (subdirs ((k, Dir sub) :: es)) with (k :: subdirs es).
    rewrite filter_cons. destruct (decide (P k)); [|done].
    rewrite <-Permutation_middle. by constructor.
Qed.

Lemma valid_tree_names (es : list (pystr * node)) (x : pystr) :
  valid_tree (Dir es) = true → x ∈ map fst es → valid_name x.
Proof.
  induction es as [|[k v] es IH]; intros Hv Hin; [by apply elem_of_nil in Hin|].
  cbn [valid_tree] in Hv. apply andb_prop in Hv as [Hv Hrest].
  apply andb_prop in Hv as [Hk _]. apply bool_decide_eq_true_1 in Hk.
  simpl in Hin. apply elem_of_cons in Hin as [->|Hin]; [done|]. by apply IH.
Qed.

Lemma valid_tree_entry (es : list (pystr * node)) (x : pystr) (c : node) :
  valid_tree (Dir es) = true → (x, c) ∈ es → valid_tree c = true.
Proof.
  induction es as [|[k v] es IH]; intros Hv Hin; [by apply elem_of_nil in Hin|].
  cbn [valid_tree] in Hv. apply andb_prop in Hv as [Hv Hrest].
  apply andb_prop in Hv as [_ Hc].
  apply elem_of_cons in Hin as [[= -> ->]|Hin]; [done|]. by apply IH.
Qed.

Section NoDupWalk.
Context (ignore : pystr → bool).

(** A reported path parses back to where its entry is. *)
Lemma walk_parts (n : node) (rel : list pystr) (r : pystr) :
  wf_node n → valid_tree n = true → Forall valid_name rel →
  r ∈ walk ignore rel n →
  ∃ comps, comps ≠ [] ∧ Path_parts r = rel ++ comps.
Proof.
  intros Hwf Hv Hrel Hr.
  apply (walk_listed ignore n Hwf) in Hr as (comps & n' & Hne & Hl & _ & _ & Hn).
  pose proof (valid_tree_lookup comps _ _ Hv Hl) as Hvalid.
  destruct (Path_parts_as_posix (rel ++ comps)) as (Hp1 & Hp2 & _).
  { by destruct rel, comps. }
  { by apply Forall_app. }
  exists comps. split; [done|].
  destruct n' as [b|sub]; [by subst | by destruct Hn as [_ ->]].
Qed.

Lemma report_parts (rel : list pystr) (es : list (pystr * node))
    (names : list pystr) (r : pystr) :
  Forall valid_name rel → Forall valid_name names →
  r ∈ report ignore rel es names →
  ∃ name, name ∈ names ∧ Path_parts r = rel ++ [name].
Proof.
  intros Hrel Hnames (name & Hin & _ & Hr)%elem_of_report.
  exists name. split; [done|].
  destruct (Path_parts_as_posix (rel ++ [name])) as (Hp1 & Hp2 & _).
  { by destruct rel. }
  { apply Forall_app. split; [done|]. constructor; [|done].
    rewrite Forall_forall in Hnames. by apply Hnames. }
  destruct (assoc name es) as [[b|sub]|]; by subst.
Qed.

Lemma report_NoDup (rel : list pystr) (es : list (pystr * node))
    (names : list pystr) :
  Forall valid_name rel → Forall valid_name names → NoDup names →
  NoDup (report ignore rel es names).
Proof.
  intros Hrel Hnames Hnd. unfold report. apply NoDup_flat_map; [done| |].
  - intros x _. simpl. destruct (ignore _); [constructor|].
    destruct (assoc x es) as [[b|sub]|]; apply NoDup_singleton.
  - intros x y z Hx Hy Hzx Hzy.
    assert (∀ name, name ∈ names →
              z ∈ (let rel_path_str := as_posix (rel ++ [name]) in
                   if ignore rel_path_str then []
                   else match assoc name es with
                        | Some (Dir _) => [rel_path_str ++ [slash]]
                        | _ => [rel_path_str]
                        end) →
              Path_parts z = rel ++ [name]) as Hparts.
    { intros name Hname Hz. cbv zeta in Hz.
      destruct (Path_parts_as_posix (rel ++ [name])) as (Hp1 & Hp2 & _).
      { by destruct rel. }
      { apply Forall_app. split; [done|]. constructor; [|done].
        rewrite Forall_forall in Hnames. by apply Hnames. }
      revert Hz. destruct (ignore (as_posix (rel ++ [name])));
        [by intros ?%elem_of_nil|].
      destruct (assoc name es) as [[b|sub]|];
        intros Hz%list_elem_of_singleton; by subst. }
    pose proof (Hparts x Hx Hzx) as H1. pose proof (Hparts y Hy Hzy) as H2.
    rewrite H1 in H2. apply app_inv_head in H2. by injection H2.
Qed.

Lemma walk_NoDup (n : node) :
  wf_node n → valid_tree n = true →
  ∀ rel, Forall valid_name rel → NoDup (walk ignore rel n).
Proof.
  induction n as [b|es IH] using node_ind'; intros Hwf Hv rel Hrel;
    [constructor|].
  pose proof Hwf as Hwf'. apply wf_node_Dir in Hwf' as [Hnd Hsub].
  assert (Forall valid_name (nondirs es ++ prune_dirs ignore rel (subdirs es)))
    as Hnames.
  { apply Forall_forall. intros x Hx. apply (valid_tree_names es x Hv).
    apply elem_of_app in Hx as [Hx|Hx]; [by apply nondirs_names|].
    rewrite prune_dirs_filter in Hx.
    apply list_elem_of_filter in Hx as [_ Hx]. by apply subdirs_names. }
  cbn [walk]. apply NoDup_app. split_and!.
  - apply report_NoDup; [done | done |].
    rewrite prune_dirs_filter. by apply names_NoDup.
  - intros r Hr Hin.
    apply report_parts in Hr as (name & _ & Hparts); [|done..].
    apply list_elem_of_In, in_flat_map in Hin as ([d c] & Hdc & Hin).
    apply list_elem_of_In in Hdc. destruct c as [b|sub]; [done|].
    case_bool_decide; [|done]. apply list_elem_of_In in Hin.
    rewrite Forall_forall in Hsub.
    apply walk_parts in Hin as (comps & Hne & Hparts').
    + rewrite Hparts, <-app_assoc in Hparts'.
      apply app_inv_head in Hparts'. destruct comps; simplify_eq.
    + apply (Hsub _ Hdc).
    + by apply (valid_tree_entry es d).
    + apply Forall_app. split; [done|]. constructor; [|done].
      apply (valid_tree_names es d Hv). apply list_elem_of_fmap.
      by exists (d, Dir sub).
  - apply NoDup_flat_map.
    + by apply (NoDup_fmap_1 fst).
    + intros [d c] Hdc. destruct c as [b|sub]; [constructor|].
      case_bool_decide; [|constructor].
      rewrite Forall_forall in IH, Hsub. apply (IH _ Hdc).
      * apply (Hsub _ Hdc).
      * by apply (valid_tree_entry es d).
      * apply Forall_app. split; [done|]. constructor; [|done].
        apply (valid_tree_names es d Hv). apply list_elem_of_fmap.
        by exists (d, Dir sub).
    + intros [d1 c1] [d2 c2] z H1 H2 Hz1 Hz2.
      destruct c1 as [b1|sub1]; [by apply elem_of_nil in Hz1|].
      destruct c2 as [b2|sub2]; [by apply elem_of_nil in Hz2|].
      repeat case_bool_decide; try (by apply elem_of_nil in Hz1);
        try (by apply elem_of_nil in Hz2).
      rewrite Forall_forall in Hsub.
      assert (∀ d sub, (d, Dir sub) ∈ es → Forall valid_name (rel ++ [d]))
        as Hreld.
      { intros d sub Hin. apply Forall_app. split; [done|].
        constructor; [|done]. apply (valid_tree_names es d Hv).
        apply list_elem_of_fmap. by exists (d, Dir sub). }
      apply walk_parts in Hz1 as (comps1 & _ & Hp1);
        [|apply (Hsub _ H1) | by apply (valid_tree_entry es d1)
         | by apply (Hreld d1 sub1)].
      apply walk_parts in Hz2 as (comps2 & _ & Hp2);
        [|apply (Hsub _ H2) | by apply (valid_tree_entry es d2)
         | by apply (Hreld d2 sub2)].
      rewrite Hp1, <-!app_assoc in Hp2. apply app_inv_head in Hp2.
      injection Hp2 as -> _.
      pose proof (assoc_NoDup _ _ _ Hnd H1) as Ha1.
      pose proof (assoc_NoDup _ _ _ Hnd H2) as Ha2. congruence.
Qed.
End NoDupWalk.

Lemma StronglySorted_lookup {A} (R : relation A) (l : list A) :
  StronglySorted R l →
  ∀ i j a b, (i < j)%nat → l !! i = Some a → l !! j = Some b → R a b.
Proof.
  induction 1 as [|x l Hl IH Hx]; intros i j a b Hij Hi Hj; [done|].
  destruct j as [|j]; [lia|]. simpl in Hj. destruct i as [|i].
  - simpl in Hi. injection Hi as <-. rewrite Forall_forall in Hx.
    apply Hx. by eapply list_elem_of_lookup_2.
  - simpl in Hi. apply (IH i j); [lia | done | done].
Qed.

(** X17. [list_files] reports no path twice: for a directory whose
    entries have proper names, distinct within each directory, the paths
    of the array are pairwise different, so the array is strictly
    increasing. *)
Theorem list_files_no_duplicates (E : Env) (inp : gmap pystr pystr) (fs : FS)
    (es : list (pystr * node)) (ignore : pystr → bool) :
  stat fs (resolve E (default (py ".") (inp !! py "path"))) = Some (Dir es) →
  wf_node (Dir es) →
  valid_tree (Dir es) = true →
  _get_gitignore E (resolve E (default (py ".") (inp !! py "path"))) fs
  = (Ok ignore, fs) →
  ∃ l,
    list_files E inp fs = (Ok (json_dumps l), fs)
    ∧ NoDup l
    ∧ ∀ i j a b, (i < j)%nat → l !! i = Some a → l !! j = Some b →
                 str_le a b ∧ a ≠ b.
Proof.
  intros Hs Hwf Hv Hg.
  pose proof (list_files_cases E inp fs) as Hc. cbv zeta in Hc.
  rewrite Hs in Hc.
  destruct Hc as [(ig & Hig & Hrun)|(d & Hd & _)]; [|by rewrite Hg in Hd].
  rewrite Hg in Hig. simplify_eq.
  exists (sorted (walk ig [] (Dir es))).
  assert (NoDup (sorted (walk ig [] (Dir es)))) as Hnd.
  { rewrite sorted_Permutation. by apply walk_NoDup. }
  split_and!; [done | done |].
  intros i j a b Hij Hi Hj. split.
  - pose proof (sorted_Sorted (walk ig [] (Dir es))) as Hsorted.
    apply Sorted_StronglySorted in Hsorted; [|apply _].
    by apply (StronglySorted_lookup str_le _ Hsorted i j a b).
  - intros ->. pose proof (NoDup_lookup _ i j b Hnd Hi Hj). lia.
Qed.

Lemma list_files_no_duplicates_witness :
  ∃ l,
    list_files sample_env ∅ sample_disk = (Ok (json_dumps l), sample_disk)
    ∧ NoDup l.
Proof.
  destruct (list_files_no_duplicates sample_env ∅ sample_disk
              [(py "a.txt", File (raw "hello"));
               (py ".gitignore", File (raw "build/"));
               (py "build", Dir [(py "out.o", File [])]);
               (py "src", Dir [(py "m.py", File (raw "x = 1"))])]
              (gitwildmatch sample_env [py "build/"]))
    as (l & Hrun & Hnd & _).
  - by vm_compute.
  - simpl. split_and!; try done; apply (bool_decide_unpack _); by vm_compute.
  - by vm_compute.
  - by vm_compute.
  - exists l. split; [exact Hrun | exact Hnd].
Defined.

(** ** The requests of one response *)


